(** * owl-bot: scanning googleapis-gen and scheduling pull requests

    A shallow embedding of
    [packages/owl-bot/src/scan-googleapis-gen-and-create-pull-requests.ts]:
    the staleness test [isCommitHashTooOld] and the scheduling procedure
    [scanGoogleapisGenAndCreatePullRequests], together with the properties
    the specification states about them.

    Modelling conventions.
    - A JavaScript string is its sequence of UTF-16 code units ([jsstring]);
      [String.prototype.trim], [startsWith], string concatenation and the
      strict equality used by [Array.prototype.indexOf] are defined on code
      units.
    - A value of type [T | undefined] is an [option T]; JavaScript truthiness
      of such a string is [truthy].
    - Calls to collaborators (git, the configs store, the copy-state store,
      the copy/pull-request code) are recorded, in program order, in a trace
      kept by a small monad; what the collaborators answer is given by
      functions that are parameters of the development.
    - Logging, the access token and the lazily created Octokit handle
      (assigned, never read) are left out; numbers are integers; a
      collaborator that throws aborts the procedure and is outside the runs
      described here. *)

From Stdlib Require Import String Ascii List ZArith NArith Bool Lia.
Import ListNotations.

Local Open Scope Z_scope.

(** ** JavaScript strings *)

Definition jsstring : Type := list N.

Definition jsstring_eq_dec : forall a b : jsstring, {a = b} + {a <> b} :=
  list_eq_dec N.eq_dec.

(** An ASCII literal as a JavaScript string. *)
Definition lit (s : string) : jsstring :=
  map N_of_ascii (list_ascii_of_string s).

(** ECMAScript [WhiteSpace] and [LineTerminator] code points: what
    [String.prototype.trim] strips. *)
Definition isWhiteSpace (c : N) : bool :=
  ((c =? 0x9) || (c =? 0xA) || (c =? 0xB) || (c =? 0xC) || (c =? 0xD)
   || (c =? 0x20) || (c =? 0xA0) || (c =? 0x1680)
   || ((0x2000 <=? c) && (c <=? 0x200A))
   || (c =? 0x2028) || (c =? 0x2029) || (c =? 0x202F) || (c =? 0x205F)
   || (c =? 0x3000) || (c =? 0xFEFF))%N.

Fixpoint trimStart (s : jsstring) : jsstring :=
  match s with
  | [] => []
  | c :: r => if isWhiteSpace c then trimStart r else s
  end.

Definition trimEnd (s : jsstring) : jsstring := rev (trimStart (rev s)).

(** [s.trim()] *)
Definition trim (s : jsstring) : jsstring := trimEnd (trimStart s).

(** [s.startsWith('/')] *)
Definition slash : N := 0x2F%N.

Definition startsWithSlash (s : jsstring) : bool :=
  match s with
  | c :: _ => (c =? slash)%N
  | [] => false
  end.

(** Truthiness of a [string | undefined]: [undefined] and the empty string
    are falsy. *)
Definition truthy (v : option jsstring) : bool :=
  match v with
  | Some (_ :: _) => true
  | _ => false
  end.

(** [arr.indexOf(x)] on an array of strings: the first index holding a
    string equal to [x], or -1. *)
Fixpoint indexOfFrom (arr : list jsstring) (x : jsstring) (i : Z) : Z :=
  match arr with
  | [] => -1
  | y :: r => if jsstring_eq_dec y x then i else indexOfFrom r x (i + 1)
  end.

Definition indexOf (arr : list jsstring) (x : jsstring) : Z :=
  indexOfFrom arr x 0.

(** ** Data model *)

(** [GithubRepo]: the fields the procedure reads ([repo.repo.owner],
    [repo.repo.repo]). *)
Module GithubRepo.
Record t : Type := mk { owner : jsstring; repo : jsstring }.
End GithubRepo.

(** [OwlBotYaml]: the one key of the parsed configuration that is read. *)
Module OwlBotYaml.
Record t : Type := mk { begin_after_commit_hash : option jsstring }.
End OwlBotYaml.

Module OwlBotYamlAndPath.
Record t : Type := mk { path : jsstring; yaml : OwlBotYaml.t }.
End OwlBotYamlAndPath.

(** An element of the result of [findReposAffectedByFileChanges]. *)
Module AffectedRepo.
Record t : Type :=
  mk { repo : GithubRepo.t; yamls : list OwlBotYamlAndPath.t }.
End AffectedRepo.

Module Todo.
Record t : Type :=
  mk { repo : GithubRepo.t; commitHash : jsstring; yamlPaths : list jsstring }.
End Todo.

Inductive WithNestedCommitDelimiters : Type := Yes | No.

(** [CopyParams]; its [copyStateStore] and [octokitFactory] members are the
    collaborators of the run themselves. *)
Module CopyParams.
Record t : Type :=
  mk { sourceRepo : jsstring;
       sourceRepoCommitHash : jsstring;
       destRepo : GithubRepo.t;
       maxYamlCountPerPullRequest : Z }.
End CopyParams.

(** [Number.MAX_SAFE_INTEGER], the default of both thresholds. *)
Definition MAX_SAFE_INTEGER : Z := 2 ^ 53 - 1.

(** ** The staleness filter *)

(** [yaml.yaml['begin-after-commit-hash']?.trim()] *)
Definition hashOf (yaml : OwlBotYamlAndPath.t) : option jsstring :=
  option_map trim
    (OwlBotYaml.begin_after_commit_hash (OwlBotYamlAndPath.yaml yaml)).

(** The loop of [isCommitHashTooOld]: the value of the local variable
    [beginAfterCommitHash] when the loop is left. *)
Fixpoint beginAfterCommitHash (yamls : list OwlBotYamlAndPath.t) : jsstring :=
  match yamls with
  | [] => []
  | yaml :: rest =>
      match hashOf yaml with
      | Some (c :: h) => c :: h
      | _ => beginAfterCommitHash rest
      end
  end.

Definition isCommitHashTooOld
  (yamls : option (list OwlBotYamlAndPath.t))
  (commitIndex : Z) (commitHashes : list jsstring) : bool :=
  let beginAfterCommitHash :=
    beginAfterCommitHash (match yamls with Some l => l | None => [] end) in
  let beginIndex :=
    match beginAfterCommitHash with
    | _ :: _ => indexOf commitHashes beginAfterCommitHash
    | [] => -1
    end in
  (beginIndex >=? 0) && (beginIndex <=? commitIndex).

(** ** Collaborator calls and the trace monad *)

Inductive Call : Type :=
| GetFilesModifiedBySha (sourceDir commitHash : jsstring)
| FindReposAffectedByFileChanges (touchedFiles : list jsstring)
| FindBuildForCopy (repo : GithubRepo.t) (copyTag : jsstring)
| CopyCodeAndAppendOrCreatePullRequest
    (params : CopyParams.t) (yamlPaths : list jsstring)
    (withNestedCommitDelimiters : WithNestedCommitDelimiters)
    (draftPullRequests : bool).

(** A computation yields its result and the calls it made, oldest first.
    [bind] is [await]: the calls of the continuation come after those of
    the computation awaited. *)
Definition M (A : Type) : Type := (A * list Call)%type.

Definition ret {A : Type} (a : A) : M A := (a, []).

Definition bind {A B : Type} (m : M A) (k : A -> M B) : M B :=
  let (a, t1) := m in
  let (b, t2) := k a in
  (b, t1 ++ t2).

Definition result {A : Type} (m : M A) : A := fst m.
Definition trace {A : Type} (m : M A) : list Call := snd m.

Declare Scope await_scope.
Delimit Scope await_scope with await.
Notation "x <- m ;; k" := (bind m (fun x => k))
  (at level 100, m at next level, right associativity) : await_scope.
Notation "m ;;; k" := (bind m (fun _ => k))
  (at level 100, right associativity) : await_scope.
Local Open Scope await_scope.

(** [touchedFiles.map(f => (f.startsWith('/') ? f : '/' + f))], one file. *)
Definition normalizePath (f : jsstring) : jsstring :=
  if startsWithSlash f then f else slash :: f.

(** [text.split(/\r?\n/)] *)
Fixpoint splitLines (text : jsstring) : list jsstring :=
  match text with
  | [] => [[]]
  | c :: r =>
      if (c =? 0xA)%N then [] :: splitLines r
      else
        match r with
        | d :: r' =>
            if ((c =? 0xD) && (d =? 0xA))%N then [] :: splitLines r'
            else
              match splitLines r with
              | l :: ls => (c :: l) :: ls
              | [] => [[c]]
              end
        | [] => [[c]]
        end
  end.

(** [text.split(/\r?\n/).map(s => s.trim()).filter(x => x)] *)
Definition parseCommitHashes (text : jsstring) : list jsstring :=
  filter (fun x => truthy (Some x)) (map trim (splitLines text)).

(** The todos built for one repo and one commit from its [todoYamls]
    (the conditional expression bound to [todos]). *)
Definition todosFor (repo : GithubRepo.t) (commitHash : jsstring)
  (todoYamls : list jsstring) (combinePullsThreshold : Z) : list Todo.t :=
  if Z.of_nat (length todoYamls) >? combinePullsThreshold
  then [Todo.mk repo commitHash todoYamls]
  else map (fun yaml => Todo.mk repo commitHash [yaml]) todoYamls.

(** ** Reading a trace *)

(** The commits whose touched files were asked for, in order. *)
Definition examined (tr : list Call) : list jsstring :=
  flat_map (fun c => match c with
                     | GetFilesModifiedBySha _ commitHash => [commitHash]
                     | _ => []
                     end) tr.

(** The file lists handed to [findReposAffectedByFileChanges], in order. *)
Definition filesPassed (tr : list Call) : list (list jsstring) :=
  flat_map (fun c => match c with
                     | FindReposAffectedByFileChanges touchedFiles =>
                         [touchedFiles]
                     | _ => []
                     end) tr.

(** The calls of the copy/pull-request collaborator, in order. *)
Definition copyCalls (tr : list Call) : list Call :=
  filter (fun c => match c with
                   | CopyCodeAndAppendOrCreatePullRequest _ _ _ _ => true
                   | _ => false
                   end) tr.

(** A trace made of ledger lookups only. *)
Definition lookupsOnly (tr : list Call) : Prop :=
  Forall (fun c => match c with
                   | FindBuildForCopy _ _ => True
                   | _ => False
                   end) tr.

(** ** A small history, used to run the procedure

    Answers of the collaborators for a history of three commits: [clone]
    for [toLocalRepo], [log] for the [git log] command, [files] for
    [getFilesModifiedBySha], [repos] for [findReposAffectedByFileChanges],
    [tag] for [copyTagFrom], and four ledgers for [findBuildForCopy]. *)

Module Sample.

Definition sourceRepo : jsstring := lit "googleapis/googleapis-gen".
Definition workDir : jsstring := lit "/tmp/work".

(** Three commits, newest first. *)
Definition c3 : jsstring := lit "c3".
Definition c2 : jsstring := lit "c2".
Definition c1 : jsstring := lit "c1".

Definition repoR : GithubRepo.t :=
  GithubRepo.mk (lit "googleapis") (lit "nodejs-vision").

Definition pathA : jsstring := lit "/a/.OwlBot.yaml".
Definition pathB : jsstring := lit "/b/.OwlBot.yaml".

Definition yamlA : OwlBotYamlAndPath.t :=
  OwlBotYamlAndPath.mk pathA (OwlBotYaml.mk None).
Definition yamlB : OwlBotYamlAndPath.t :=
  OwlBotYamlAndPath.mk pathB (OwlBotYaml.mk None).

(** Configs with a boundary: a blank one, then [c2] with blanks around
    it, then [c1]. *)
Definition yamlBlank : OwlBotYamlAndPath.t :=
  OwlBotYamlAndPath.mk pathA (OwlBotYaml.mk (Some (lit "  "))).
Definition yamlAfterC2 : OwlBotYamlAndPath.t :=
  OwlBotYamlAndPath.mk pathA (OwlBotYaml.mk (Some (lit " c2 "))).
Definition yamlAfterC1 : OwlBotYamlAndPath.t :=
  OwlBotYamlAndPath.mk pathB (OwlBotYaml.mk (Some (lit "c1"))).

Definition affected : AffectedRepo.t := AffectedRepo.mk repoR [yamlA; yamlB].

Definition clone (_ : jsstring) (_ : Z) : jsstring := workDir.

(** The output of [git log]: one hash per line, one line ending in CR LF. *)
Definition log (_ : jsstring) (_ : Z) : jsstring :=
  c3 ++ [0xA%N] ++ c2 ++ [0xD%N; 0xA%N] ++ c1 ++ [0xA%N].

(** [c3] and [c2] touch files of both APIs, [c1] touches nothing. *)
Definition files (_ commitHash : jsstring) : list jsstring :=
  if jsstring_eq_dec commitHash c1 then []
  else [lit "a/x.ts"; lit "/b/y.ts"].

Definition repos (touchedFiles : list jsstring) : list AffectedRepo.t :=
  match touchedFiles with
  | [] => []
  | _ :: _ => [affected]
  end.

Definition tag (yamlPath commitHash : jsstring) : jsstring :=
  yamlPath ++ lit "@" ++ commitHash.

(** Ledgers: an empty one; one that answers the empty build id; one with
    a build for [pathA] at [c2]; one with builds for both paths at [c2]. *)
Definition noBuilds (_ : GithubRepo.t) (_ : jsstring) : option jsstring :=
  None.

Definition emptyBuildId (_ : GithubRepo.t) (_ : jsstring) : option jsstring :=
  Some [].

Definition builtA (_ : GithubRepo.t) (copyTag : jsstring) : option jsstring :=
  if jsstring_eq_dec copyTag (tag pathA c2)
  then Some (lit "build-1") else None.

Definition caughtUp (_ : GithubRepo.t) (copyTag : jsstring) : option jsstring :=
  if jsstring_eq_dec copyTag (tag pathA c2) then Some (lit "build-2")
  else if jsstring_eq_dec copyTag (tag pathB c2) then Some (lit "build-3")
  else None.

End Sample.

(** ** The scheduling procedure *)

Section Scan.

(** What the collaborators answer. *)
Variable toLocalRepo : jsstring -> Z -> jsstring.
Variable gitLog : jsstring -> Z -> jsstring.
Variable getFilesModifiedBySha : jsstring -> jsstring -> list jsstring.
Variable findReposAffectedByFileChanges : list jsstring -> list AffectedRepo.t.
Variable findBuildForCopy : GithubRepo.t -> jsstring -> option jsstring.
Variable copyTagFrom : jsstring -> jsstring -> jsstring.

Definition awaitGetFilesModifiedBySha (sourceDir commitHash : jsstring)
  : M (list jsstring) :=
  (getFilesModifiedBySha sourceDir commitHash,
   [GetFilesModifiedBySha sourceDir commitHash]).

Definition awaitFindReposAffectedByFileChanges (touchedFiles : list jsstring)
  : M (list AffectedRepo.t) :=
  (findReposAffectedByFileChanges touchedFiles,
   [FindReposAffectedByFileChanges touchedFiles]).

Definition awaitFindBuildForCopy (repo : GithubRepo.t) (copyTag : jsstring)
  : M (option jsstring) :=
  (findBuildForCopy repo copyTag, [FindBuildForCopy repo copyTag]).

Definition awaitCopyCodeAndAppendOrCreatePullRequest
  (params : CopyParams.t) (yamlPaths : list jsstring)
  (withNestedCommitDelimiters : WithNestedCommitDelimiters)
  (draftPullRequests : bool) : M unit :=
  (tt, [CopyCodeAndAppendOrCreatePullRequest
          params yamlPaths withNestedCommitDelimiters draftPullRequests]).

(** The arguments of the procedure that the loops read. *)
Variable combinePullsThreshold : Z.
Variable withNestedCommitDelimiters : WithNestedCommitDelimiters.
Variable maxYamlCountPerPullRequest : Z.
Variable draftPullRequests : bool.

(** [for (const yaml of repo.yamls)]: the ledger lookups filling
    [todoYamls]. *)
Fixpoint collectTodoYamls (repo : GithubRepo.t) (commitHash : jsstring)
  (yamls : list OwlBotYamlAndPath.t) (todoYamls : list jsstring)
  : M (list jsstring) :=
  match yamls with
  | [] => ret todoYamls
  | yaml :: rest =>
      copyBuildId <-
        awaitFindBuildForCopy repo
          (copyTagFrom (OwlBotYamlAndPath.path yaml) commitHash) ;;
      if truthy copyBuildId
      then collectTodoYamls repo commitHash rest todoYamls
      else collectTodoYamls repo commitHash rest
             (todoYamls ++ [OwlBotYamlAndPath.path yaml])
  end.

(** The body of [for (const repo of repos)]. *)
Definition forRepo (commitIndex : nat) (commitHash : jsstring)
  (commitHashes : list jsstring) (repo : AffectedRepo.t)
  (todoStack : list Todo.t) : M (list Todo.t) :=
  if isCommitHashTooOld (Some (AffectedRepo.yamls repo))
       (Z.of_nat commitIndex) commitHashes
  then ret todoStack
  else
    todoYamls <-
      collectTodoYamls (AffectedRepo.repo repo) commitHash
        (AffectedRepo.yamls repo) [] ;;
    if (0 <? length todoYamls)%nat
    then ret (todoStack ++
              todosFor (AffectedRepo.repo repo) commitHash todoYamls
                combinePullsThreshold)
    else ret todoStack.

Fixpoint forRepos (commitIndex : nat) (commitHash : jsstring)
  (commitHashes : list jsstring) (repos : list AffectedRepo.t)
  (todoStack : list Todo.t) : M (list Todo.t) :=
  match repos with
  | [] => ret todoStack
  | repo :: rest =>
      todoStack' <-
        forRepo commitIndex commitHash commitHashes repo todoStack ;;
      forRepos commitIndex commitHash commitHashes rest todoStack'
  end.

(** [for (const [commitIndex, commitHash] of commitHashes.entries())],
    from the entry at [commitIndex] on; [entries] are the hashes not yet
    visited. *)
Fixpoint scanLoop (sourceDir : jsstring) (commitIndex : nat)
  (entries : list jsstring) (commitHashes : list jsstring)
  (todoStack : list Todo.t) : M (list Todo.t) :=
  match entries with
  | [] => ret todoStack
  | commitHash :: older =>
      touchedFiles <- awaitGetFilesModifiedBySha sourceDir commitHash ;;
      let touchedFiles := map normalizePath touchedFiles in
      repos <- awaitFindReposAffectedByFileChanges touchedFiles ;;
      let stackSize := length todoStack in
      todoStack' <-
        forRepos commitIndex commitHash commitHashes repos todoStack ;;
      if (0 <? length repos)%nat && (length todoStack' =? stackSize)%nat
      then ret todoStack'
      else scanLoop sourceDir (S commitIndex) older commitHashes todoStack'
  end.

(** The call made for one todo of the reversed stack. *)
Definition copyCallOf (sourceDir : jsstring) (todo : Todo.t) : Call :=
  let params :=
    CopyParams.mk sourceDir (Todo.commitHash todo) (Todo.repo todo)
      maxYamlCountPerPullRequest in
  CopyCodeAndAppendOrCreatePullRequest params (Todo.yamlPaths todo)
    withNestedCommitDelimiters draftPullRequests.

(** [for (const todo of todoStack.reverse())], given the reversed stack. *)
Fixpoint replay (sourceDir : jsstring) (todos : list Todo.t) : M unit :=
  match todos with
  | [] => ret tt
  | todo :: rest =>
      let params :=
        CopyParams.mk sourceDir (Todo.commitHash todo) (Todo.repo todo)
          maxYamlCountPerPullRequest in
      awaitCopyCodeAndAppendOrCreatePullRequest params (Todo.yamlPaths todo)
        withNestedCommitDelimiters draftPullRequests ;;;
      replay sourceDir rest
  end.

(** The todo stack when the scan is over. *)
Definition scanned (sourceDir : jsstring) (commitHashes : list jsstring)
  : M (list Todo.t) :=
  scanLoop sourceDir 0 commitHashes commitHashes [].

(** The procedure from the collected [commitHashes] on.  [reverse]
    reverses [todoStack] in place, so the length returned is that of the
    reversed array. *)
Definition scanAndReplay (sourceDir : jsstring) (commitHashes : list jsstring)
  : M Z :=
  todoStack <- scanned sourceDir commitHashes ;;
  let todoStack := rev todoStack in
  replay sourceDir todoStack ;;;
  ret (Z.of_nat (length todoStack)).

(** The whole procedure.  [cloneDepth + 1] is the sum of the code for a
    [cloneDepth] that is a safe integer; beyond [MAX_SAFE_INTEGER] the
    code's addition rounds. *)
Definition scanGoogleapisGenAndCreatePullRequests
  (sourceRepo : jsstring) (cloneDepth : Z) : M Z :=
  let sourceDir := toLocalRepo sourceRepo (cloneDepth + 1) in
  let commitHashes := parseCommitHashes (gitLog sourceDir cloneDepth) in
  scanAndReplay sourceDir commitHashes.

(** *** Per-commit quantities the properties speak about *)

(** The value of [repos] for a commit. *)
Definition reposOf (sourceDir commitHash : jsstring) : list AffectedRepo.t :=
  findReposAffectedByFileChanges
    (map normalizePath (getFilesModifiedBySha sourceDir commitHash)).

(** What the repo loop pushes for the commit at index [i], run on an
    empty stack. *)
Definition newTodos (sourceDir : jsstring) (commitHashes : list jsstring)
  (i : nat) : list Todo.t :=
  let commitHash := nth i commitHashes [] in
  result (forRepos i commitHash commitHashes (reposOf sourceDir commitHash) []).

(** The commit at index [i] affects at least one repo and yields no new
    todo: the condition of the [break]. *)
Definition allDone (sourceDir : jsstring) (commitHashes : list jsstring)
  (i : nat) : bool :=
  (0 <? length (reposOf sourceDir (nth i commitHashes [])))%nat
  && (length (newTodos sourceDir commitHashes i) =? 0)%nat.

(** The ledger holds no build for a path of the todo, under the todo's
    repo and commit. *)
Definition unrecorded (todo : Todo.t) : Prop :=
  Forall
    (fun p =>
       truthy (findBuildForCopy (Todo.repo todo)
                 (copyTagFrom p (Todo.commitHash todo))) = false)
    (Todo.yamlPaths todo).

(** *** Further quantities the properties speak about *)

(** The config-paths of [yamls] for which the ledger answers no build id,
    or an empty one, under [repo] and [commitHash]; in the order of
    [yamls]. *)
Definition pathsWithoutBuild (repo : GithubRepo.t) (commitHash : jsstring)
  (yamls : list OwlBotYamlAndPath.t) : list jsstring :=
  map OwlBotYamlAndPath.path
    (filter (fun yaml =>
               negb (truthy
                       (findBuildForCopy repo
                          (copyTagFrom (OwlBotYamlAndPath.path yaml)
                             commitHash))))
            yamls).

(** The ledger lookups for the configs of a repo at a commit, in order. *)
Definition lookupsOf (repo : GithubRepo.t) (commitHash : jsstring)
  (yamls : list OwlBotYamlAndPath.t) : list Call :=
  map (fun yaml =>
         FindBuildForCopy repo
           (copyTagFrom (OwlBotYamlAndPath.path yaml) commitHash))
      yamls.

(** Nothing is left to do for [repo] at the commit: the commit is too old
    for it, or the ledger holds a build for each of its configs. *)
Definition settled (commitIndex : nat) (commitHash : jsstring)
  (commitHashes : list jsstring) (repo : AffectedRepo.t) : bool :=
  isCommitHashTooOld (Some (AffectedRepo.yamls repo))
    (Z.of_nat commitIndex) commitHashes
  || forallb (fun yaml =>
                truthy (findBuildForCopy (AffectedRepo.repo repo)
                          (copyTagFrom (OwlBotYamlAndPath.path yaml)
                             commitHash)))
             (AffectedRepo.yamls repo).

(** The text [git log --format=%H] prints for a list of hashes: one hash
    per line, each line ended by LF, or by CR LF where the flag is set. *)
Definition lineOf (entry : jsstring * bool) : jsstring :=
  fst entry ++ (if snd entry then [0xD; 0xA]%N else [0xA]%N).

Definition logText (entries : list (jsstring * bool)) : jsstring :=
  flat_map lineOf entries.

(** * Properties *)

(** ** Strings and arrays *)

Lemma trimStart_whitespace (w : jsstring) :
  Forall (fun c => isWhiteSpace c = true) w -> trimStart w = [].
Proof.
  induction 1 as [|c w Hc _ IH]; simpl; [reflexivity|].
  now rewrite Hc.
Qed.

Lemma trim_whitespace (w : jsstring) :
  Forall (fun c => isWhiteSpace c = true) w -> trim w = [].
Proof.
  intros Hw. unfold trim, trimEnd.
  now rewrite (trimStart_whitespace w Hw).
Qed.

Lemma indexOfFrom_absent (arr : list jsstring) (x : jsstring) (i : Z) :
  ~ In x arr -> indexOfFrom arr x i = -1.
Proof.
  revert i. induction arr as [|y r IH]; intros i Hn; simpl; [reflexivity|].
  destruct (jsstring_eq_dec y x) as [->|_].
  - exfalso. apply Hn. now left.
  - apply IH. intros Hin. apply Hn. now right.
Qed.

Lemma indexOfFrom_first (arr : list jsstring) (x : jsstring) (k : nat) (i : Z) :
  nth_error arr k = Some x ->
  (forall j, (j < k)%nat -> nth_error arr j <> Some x) ->
  indexOfFrom arr x i = i + Z.of_nat k.
Proof.
  revert k i. induction arr as [|y r IH]; intros k i Hk Hmin.
  - destruct k; discriminate.
  - simpl. destruct (jsstring_eq_dec y x) as [->|Hne].
    + destruct k as [|k]; [lia|].
      exfalso. apply (Hmin 0%nat); [lia | reflexivity].
    + destruct k as [|k]; simpl in Hk; [congruence|].
      rewrite (IH k (i + 1) Hk); [lia|].
      intros j Hj. apply (Hmin (S j)). lia.
Qed.

(** In an array without repeated elements the position of an element is
    its first occurrence. *)
Lemma NoDup_first_occurrence (arr : list jsstring) (x : jsstring) (k : nat) :
  NoDup arr -> nth_error arr k = Some x ->
  forall j, (j < k)%nat -> nth_error arr j <> Some x.
Proof.
  intros Hnd Hk j Hj Hjx.
  assert (Hlen : (j < length arr)%nat) by (apply nth_error_Some; congruence).
  pose proof (proj1 (NoDup_nth_error arr) Hnd j k Hlen) as Heq.
  rewrite Hk, Hjx in Heq. specialize (Heq eq_refl). lia.
Qed.

(** ** The staleness filter *)

Lemma isCommitHashTooOld_selected
  (yamls : list OwlBotYamlAndPath.t) (i : Z) (hs : list jsstring) :
  beginAfterCommitHash yamls <> [] ->
  isCommitHashTooOld (Some yamls) i hs =
    (indexOf hs (beginAfterCommitHash yamls) >=? 0)
    && (indexOf hs (beginAfterCommitHash yamls) <=? i).
Proof.
  intros Hne. unfold isCommitHashTooOld.
  destruct (beginAfterCommitHash yamls); [congruence | reflexivity].
Qed.

Lemma isCommitHashTooOld_unselected
  (yamls : list OwlBotYamlAndPath.t) (i : Z) (hs : list jsstring) :
  beginAfterCommitHash yamls = [] ->
  isCommitHashTooOld (Some yamls) i hs = false.
Proof.
  intros He. unfold isCommitHashTooOld. now rewrite He.
Qed.

Lemma beginAfterCommitHash_skip
  (pre rest : list OwlBotYamlAndPath.t) :
  Forall (fun yaml => truthy (hashOf yaml) = false) pre ->
  beginAfterCommitHash (pre ++ rest) = beginAfterCommitHash rest.
Proof.
  induction 1 as [|yaml pre Hy _ IH]; simpl; [reflexivity|].
  destruct (hashOf yaml) as [[|c h]|]; simpl in Hy; try discriminate; exact IH.
Qed.

Lemma beginAfterCommitHash_none (yamls : list OwlBotYamlAndPath.t) :
  Forall (fun yaml => truthy (hashOf yaml) = false) yamls ->
  beginAfterCommitHash yamls = [].
Proof.
  intros Hall. rewrite <- (app_nil_r yamls).
  now rewrite (beginAfterCommitHash_skip yamls [] Hall).
Qed.

Lemma beginAfterCommitHash_here
  (yaml : OwlBotYamlAndPath.t) (rest : list OwlBotYamlAndPath.t)
  (H : jsstring) :
  hashOf yaml = Some H -> H <> [] ->
  beginAfterCommitHash (yaml :: rest) = H.
Proof.
  intros Hy Hne. simpl. rewrite Hy. destruct H; [congruence | reflexivity].
Qed.

(** C3. When the boundary [H] selected from the configs sits at index [k]
    of the commit-hash list (its first occurrence; its only one in a
    history, where no hash repeats), [isCommitHashTooOld] answers true at
    every index [i >= k] and false at every index [i < k]; when [H] does
    not occur in the list it answers false at every index. *)
Theorem isCommitHashTooOld_boundary
  (yamls : list OwlBotYamlAndPath.t) (hs : list jsstring)
  (H : jsstring) (k : nat) (i : Z) :
  beginAfterCommitHash yamls = H -> H <> [] ->
  (nth_error hs k = Some H ->
   (forall j, (j < k)%nat -> nth_error hs j <> Some H) ->
   (Z.of_nat k <= i -> isCommitHashTooOld (Some yamls) i hs = true) /\
   (i < Z.of_nat k -> isCommitHashTooOld (Some yamls) i hs = false))
  /\ (~ In H hs -> isCommitHashTooOld (Some yamls) i hs = false).
Proof.
  intros Hsel Hne. subst H.
  rewrite (isCommitHashTooOld_selected yamls i hs Hne).
  split.
  - intros Hk Hmin. unfold indexOf.
    rewrite (indexOfFrom_first hs _ k 0 Hk Hmin).
    split; intros Hi.
    + apply andb_true_iff. split; [apply Z.geb_le | apply Z.leb_le]; lia.
    + apply andb_false_iff. right. apply Z.leb_gt. lia.
  - intros Hn. unfold indexOf. now rewrite (indexOfFrom_absent hs _ 0 Hn).
Qed.

(** C4. The boundary is taken from the first config, in list order, whose
    trimmed [begin-after-commit-hash] is non-empty: the configs after it do
    not influence the answer; and when no config declares one the answer is
    false at every index of every commit-hash list. *)
Theorem isCommitHashTooOld_first_declared
  (pre post : list OwlBotYamlAndPath.t) (yaml : OwlBotYamlAndPath.t)
  (H : jsstring) (i : Z) (hs : list jsstring) :
  Forall (fun y => truthy (hashOf y) = false) pre ->
  (hashOf yaml = Some H -> H <> [] ->
   beginAfterCommitHash (pre ++ yaml :: post) = H /\
   isCommitHashTooOld (Some (pre ++ yaml :: post)) i hs =
     (indexOf hs H >=? 0) && (indexOf hs H <=? i))
  /\ isCommitHashTooOld (Some pre) i hs = false.
Proof.
  intros Hpre. split.
  - intros Hy Hne.
    assert (Hsel : beginAfterCommitHash (pre ++ yaml :: post) = H).
    { rewrite (beginAfterCommitHash_skip pre (yaml :: post) Hpre).
      exact (beginAfterCommitHash_here yaml post H Hy Hne). }
    split; [exact Hsel|].
    rewrite isCommitHashTooOld_selected; rewrite Hsel;
      [reflexivity | exact Hne].
  - apply isCommitHashTooOld_unselected.
    exact (beginAfterCommitHash_none pre Hpre).
Qed.

(** C10. [isCommitHashTooOld] answers false, without an error, when [yamls]
    is undefined; a [begin-after-commit-hash] made of white space only is
    trimmed to the empty string and counts as an absent one: the answer is
    that of the same configs with the key left out, and it is false when no
    other config declares a boundary. *)
Theorem isCommitHashTooOld_undefined_or_blank
  (pre post : list OwlBotYamlAndPath.t) (p w : jsstring)
  (i : Z) (hs : list jsstring) :
  Forall (fun c => isWhiteSpace c = true) w ->
  let blank := OwlBotYamlAndPath.mk p (OwlBotYaml.mk (Some w)) in
  let absent := OwlBotYamlAndPath.mk p (OwlBotYaml.mk None) in
  isCommitHashTooOld None i hs = false
  /\ trim w = []
  /\ isCommitHashTooOld (Some (pre ++ blank :: post)) i hs
     = isCommitHashTooOld (Some (pre ++ absent :: post)) i hs
  /\ (Forall (fun y => truthy (hashOf y) = false) (pre ++ post) ->
      isCommitHashTooOld (Some (pre ++ blank :: post)) i hs = false).
Proof.
  intros Hw blank absent. pose proof (trim_whitespace w Hw) as Ht.
  assert (Hblank : truthy (hashOf blank) = false).
  { unfold hashOf. simpl. now rewrite Ht. }
  split; [reflexivity|]. split; [exact Ht|]. split.
  - unfold isCommitHashTooOld.
    replace (beginAfterCommitHash (pre ++ blank :: post))
      with (beginAfterCommitHash (pre ++ absent :: post)); [reflexivity|].
    induction pre as [|y pre IH]; simpl.
    + unfold hashOf. simpl. now rewrite Ht.
    + now rewrite IH.
  - intros Hothers. apply Forall_app in Hothers.
    destruct Hothers as [Hpre Hpost].
    apply isCommitHashTooOld_unselected, beginAfterCommitHash_none.
    apply Forall_app. split; [exact Hpre|]. now constructor.
Qed.

(** ** The trace monad *)

Lemma result_bind {A B : Type} (m : M A) (k : A -> M B) :
  result (bind m k) = result (k (result m)).
Proof.
  unfold result, bind. destruct m as [a t1]. simpl. now destruct (k a).
Qed.

Lemma trace_bind {A B : Type} (m : M A) (k : A -> M B) :
  trace (bind m k) = trace m ++ trace (k (result m)).
Proof.
  unfold result, trace, bind. destruct m as [a t1]. simpl. now destruct (k a).
Qed.

Lemma result_ret {A : Type} (a : A) : result (ret a) = a.
Proof. reflexivity. Qed.

Lemma trace_ret {A : Type} (a : A) : trace (ret a) = [].
Proof. reflexivity. Qed.

Lemma examined_app (t1 t2 : list Call) :
  examined (t1 ++ t2) = examined t1 ++ examined t2.
Proof. apply flat_map_app. Qed.

Lemma filesPassed_app (t1 t2 : list Call) :
  filesPassed (t1 ++ t2) = filesPassed t1 ++ filesPassed t2.
Proof. apply flat_map_app. Qed.

Lemma copyCalls_app (t1 t2 : list Call) :
  copyCalls (t1 ++ t2) = copyCalls t1 ++ copyCalls t2.
Proof. apply filter_app. Qed.

Lemma lookupsOnly_silent (tr : list Call) :
  lookupsOnly tr ->
  examined tr = [] /\ filesPassed tr = [] /\ copyCalls tr = [].
Proof.
  induction 1 as [|c tr Hc _ IH]; [now repeat split|].
  destruct c; try contradiction. exact IH.
Qed.

(** ** The dedup filter *)

Lemma collectTodoYamls_trace
  (repo : GithubRepo.t) (h : jsstring) (yamls : list OwlBotYamlAndPath.t)
  (acc : list jsstring) :
  lookupsOnly (trace (collectTodoYamls repo h yamls acc)).
Proof.
  revert acc. induction yamls as [|yaml rest IH]; intros acc;
    cbn [collectTodoYamls].
  - constructor.
  - rewrite trace_bind. apply Forall_app. split.
    + repeat constructor.
    + destruct (truthy _); apply IH.
Qed.

Lemma collectTodoYamls_In
  (repo : GithubRepo.t) (h : jsstring) (yamls : list OwlBotYamlAndPath.t)
  (acc : list jsstring) (p : jsstring) :
  In p (result (collectTodoYamls repo h yamls acc)) <->
  In p acc \/
  exists yaml, In yaml yamls /\ OwlBotYamlAndPath.path yaml = p /\
               truthy (findBuildForCopy repo (copyTagFrom p h)) = false.
Proof.
  revert acc. induction yamls as [|yaml rest IH]; intros acc;
    cbn [collectTodoYamls].
  - split; [now left | intros [Hin | (y & [] & _)]; exact Hin].
  - rewrite result_bind. cbn [awaitFindBuildForCopy result fst].
    destruct (truthy (findBuildForCopy repo
                        (copyTagFrom (OwlBotYamlAndPath.path yaml) h))) eqn:Hb;
      rewrite IH; clear IH.
    + split.
      * intros [Hin | (y & Hy & Hp & Hf)]; [now left | right].
        exists y. repeat split; [now right | assumption | assumption].
      * intros [Hin | (y & [Hy | Hy] & Hp & Hf)]; [now left | | right].
        -- subst. congruence.
        -- exists y. repeat split; assumption.
    + rewrite in_app_iff. split.
      * intros [[Hin | [Hp | []]] | (y & Hy & Hp & Hf)].
        -- now left.
        -- right. exists yaml. subst. repeat split; [now left | assumption].
        -- right. exists y. repeat split; [now right | assumption | assumption].
      * intros [Hin | (y & [Hy | Hy] & Hp & Hf)].
        -- left. now left.
        -- left. right. left. now subst.
        -- right. exists y. repeat split; assumption.
Qed.

(** ** The work aggregator *)

Lemma todosFor_shape
  (repo : GithubRepo.t) (h : jsstring) (todoYamls : list jsstring)
  (threshold : Z) (todo : Todo.t) :
  In todo (todosFor repo h todoYamls threshold) ->
  Todo.repo todo = repo /\ Todo.commitHash todo = h /\
  incl (Todo.yamlPaths todo) todoYamls.
Proof.
  unfold todosFor. destruct (_ >? _).
  - intros [<- | []]. simpl. repeat split. apply incl_refl.
  - intros Hin. apply in_map_iff in Hin. destruct Hin as (p & <- & Hp).
    simpl. repeat split. intros q [<- | []]. exact Hp.
Qed.

(** What the body of the repo loop does to the stack does not depend on
    the stack: it appends what it would push on an empty one. *)
Lemma forRepo_local
  (i : nat) (h : jsstring) (hs : list jsstring) (repo : AffectedRepo.t)
  (st : list Todo.t) :
  result (forRepo i h hs repo st) = st ++ result (forRepo i h hs repo []) /\
  trace (forRepo i h hs repo st) = trace (forRepo i h hs repo []).
Proof.
  unfold forRepo. destruct (isCommitHashTooOld _ _ _).
  - simpl. now rewrite app_nil_r.
  - rewrite !result_bind, !trace_bind.
    destruct (0 <? length _)%nat; simpl; rewrite ?app_nil_r; auto.
Qed.

Lemma forRepo_trace
  (i : nat) (h : jsstring) (hs : list jsstring) (repo : AffectedRepo.t)
  (st : list Todo.t) :
  lookupsOnly (trace (forRepo i h hs repo st)).
Proof.
  unfold forRepo. destruct (isCommitHashTooOld _ _ _); [constructor|].
  rewrite trace_bind. apply Forall_app. split.
  - apply collectTodoYamls_trace.
  - destruct (0 <? length _)%nat; constructor.
Qed.

Lemma forRepos_local
  (i : nat) (h : jsstring) (hs : list jsstring) (repos : list AffectedRepo.t)
  (st : list Todo.t) :
  result (forRepos i h hs repos st) = st ++ result (forRepos i h hs repos []) /\
  trace (forRepos i h hs repos st) = trace (forRepos i h hs repos []).
Proof.
  revert st. induction repos as [|repo rest IH]; intros st; cbn [forRepos].
  - rewrite result_ret. now rewrite app_nil_r.
  - rewrite !result_bind, !trace_bind.
    destruct (forRepo_local i h hs repo st) as [Hr Ht].
    rewrite Hr, Ht.
    destruct (IH (st ++ result (forRepo i h hs repo []))) as [Hr1 Ht1].
    destruct (IH (result (forRepo i h hs repo []))) as [Hr2 Ht2].
    rewrite Hr1, Ht1, Hr2, Ht2. now rewrite app_assoc.
Qed.

Lemma forRepos_trace
  (i : nat) (h : jsstring) (hs : list jsstring) (repos : list AffectedRepo.t)
  (st : list Todo.t) :
  lookupsOnly (trace (forRepos i h hs repos st)).
Proof.
  revert st. induction repos as [|repo rest IH]; intros st; cbn [forRepos].
  - constructor.
  - rewrite trace_bind. apply Forall_app.
    split; [apply forRepo_trace | apply IH].
Qed.

Lemma collectTodoYamls_result
  (repo : GithubRepo.t) (h : jsstring) (yamls : list OwlBotYamlAndPath.t)
  (acc : list jsstring) :
  result (collectTodoYamls repo h yamls acc) =
  acc ++ map OwlBotYamlAndPath.path
           (filter (fun yaml =>
                      negb (truthy
                              (findBuildForCopy repo
                                 (copyTagFrom (OwlBotYamlAndPath.path yaml) h))))
                   yamls).
Proof.
  revert acc. induction yamls as [|yaml rest IH]; intros acc;
    cbn [collectTodoYamls filter].
  - simpl. now rewrite app_nil_r.
  - rewrite result_bind. cbn [awaitFindBuildForCopy result fst].
    destruct (truthy _); cbn [negb map]; rewrite IH; [reflexivity|].
    now rewrite <- app_assoc.
Qed.

(** C2. For a repo and a commit with a non-empty list of todo config-paths:
    when their number exceeds [combinePullsThreshold] the repo loop pushes
    one todo holding all of them, otherwise one todo per config-path, each
    with that single path.  Whatever the stack holds from earlier repos and
    commits, the same todos are pushed. *)
Theorem forRepo_combines_above_threshold
  (i : nat) (h : jsstring) (hs : list jsstring) (repo : AffectedRepo.t)
  (st : list Todo.t) (todoYamls : list jsstring) :
  isCommitHashTooOld (Some (AffectedRepo.yamls repo)) (Z.of_nat i) hs = false ->
  result (collectTodoYamls (AffectedRepo.repo repo) h
            (AffectedRepo.yamls repo) []) = todoYamls ->
  todoYamls <> [] ->
  (Z.of_nat (length todoYamls) > combinePullsThreshold ->
   result (forRepo i h hs repo st) =
     st ++ [Todo.mk (AffectedRepo.repo repo) h todoYamls])
  /\ (Z.of_nat (length todoYamls) <= combinePullsThreshold ->
      result (forRepo i h hs repo st) =
        st ++ map (fun p => Todo.mk (AffectedRepo.repo repo) h [p]) todoYamls).
Proof.
  intros Hfresh Hcollect Hne. unfold forRepo.
  rewrite Hfresh, result_bind, Hcollect.
  assert (Hlen : (0 <? length todoYamls)%nat = true).
  { destruct todoYamls; [congruence | reflexivity]. }
  rewrite Hlen, result_ret. unfold todosFor. split; intros Hcmp.
  - apply Z.gt_lt, Z.gtb_lt in Hcmp. now rewrite Hcmp.
  - destruct (Z.of_nat (length todoYamls) >? combinePullsThreshold) eqn:Hgt;
      [|reflexivity].
    apply Z.gtb_lt in Hgt. lia.
Qed.

(** ** The scan loop *)

Lemma nth_middle_entry (pre older : list jsstring) (h : jsstring) :
  nth (length pre) (pre ++ h :: older) [] = h.
Proof. now rewrite app_nth2, Nat.sub_diag by lia. Qed.

(** One iteration of the scan loop, with the stack effect of the repo loop
    made explicit. *)
Lemma scanLoop_step
  (sd : jsstring) (idx : nat) (h : jsstring) (older hs : list jsstring)
  (st : list Todo.t) :
  let repos := reposOf sd h in
  let new := result (forRepos idx h hs repos []) in
  let stop := ((0 <? length repos) && (length new =? 0))%nat in
  result (scanLoop sd idx (h :: older) hs st) =
    (if stop then st ++ new
     else result (scanLoop sd (S idx) older hs (st ++ new)))
  /\ trace (scanLoop sd idx (h :: older) hs st) =
       GetFilesModifiedBySha sd h
       :: FindReposAffectedByFileChanges
            (map normalizePath (getFilesModifiedBySha sd h))
       :: trace (forRepos idx h hs repos [])
          ++ (if stop then []
              else trace (scanLoop sd (S idx) older hs (st ++ new))).
Proof.
  intros repos new stop. cbn [scanLoop].
  rewrite !result_bind, !trace_bind.
  cbn [awaitGetFilesModifiedBySha awaitFindReposAffectedByFileChanges
       result trace fst snd].
  fold (reposOf sd h). fold repos.
  destruct (forRepos_local idx h hs repos st) as [Hr Ht].
  change (fst (forRepos idx h hs repos st))
    with (result (forRepos idx h hs repos st)).
  rewrite Hr, Ht. fold new.
  replace (length (st ++ new) =? length st)%nat with (length new =? 0)%nat.
  - fold stop. split; [now destruct stop|].
    destruct stop; reflexivity.
  - rewrite length_app.
    destruct (Nat.eqb_spec (length new) 0) as [-> | Hn]; symmetry.
    + apply Nat.eqb_eq. lia.
    + apply Nat.eqb_neq. lia.
Qed.

Lemma allDone_at (sd : jsstring) (pre older : list jsstring) (h : jsstring) :
  allDone sd (pre ++ h :: older) (length pre) =
  ((0 <? length (reposOf sd h))
   && (length (result (forRepos (length pre) h (pre ++ h :: older)
                         (reposOf sd h) [])) =? 0))%nat.
Proof. unfold allDone, newTodos. now rewrite nth_middle_entry. Qed.

(** The commits examined from the entry after [pre] on: a prefix of the
    remaining entries, which ends with the first one that satisfies the
    condition of the [break]. *)
Lemma scanLoop_examined
  (sd : jsstring) (entries pre : list jsstring) (st : list Todo.t) :
  exists n,
    (n <= length entries)%nat
    /\ examined (trace (scanLoop sd (length pre) entries (pre ++ entries) st))
       = firstn n entries
    /\ forall i, (i < length entries)%nat ->
         ((i < n)%nat <->
          forall j, (j < i)%nat ->
            allDone sd (pre ++ entries) (length pre + j) = false).
Proof.
  revert pre st. induction entries as [|h older IH]; intros pre st.
  - exists 0%nat. repeat split; simpl in *; try lia.
  - destruct (scanLoop_step sd (length pre) h older (pre ++ h :: older) st)
      as [_ Ht].
    rewrite Ht. clear Ht.
    change (GetFilesModifiedBySha sd h :: ?a :: ?t)
      with ([GetFilesModifiedBySha sd h; a] ++ t).
    rewrite !examined_app.
    destruct (lookupsOnly_silent _
                (forRepos_trace (length pre) h (pre ++ h :: older)
                   (reposOf sd h) [])) as (-> & _ & _).
    pose proof (allDone_at sd pre older h) as Hdone.
    destruct ((0 <? length (reposOf sd h))
              && (length (result (forRepos (length pre) h (pre ++ h :: older)
                                    (reposOf sd h) [])) =? 0))%nat.
    + exists 1%nat. split; [simpl; lia|]. split; [reflexivity|].
      intros i Hi. split.
      * intros Hlt j Hj. lia.
      * intros Hall. destruct i as [|i]; [lia|].
        specialize (Hall 0%nat ltac:(lia)).
        rewrite Nat.add_0_r in Hall. congruence.
    + specialize (IH (pre ++ [h])
                    (st ++ result (forRepos (length pre) h (pre ++ h :: older)
                                     (reposOf sd h) []))).
      rewrite <- app_assoc in IH. simpl in IH.
      rewrite length_app in IH. simpl in IH.
      replace (length pre + 1)%nat with (S (length pre)) in IH by lia.
      destruct IH as (n & Hn & Hex & Hiff).
      exists (S n). split; [simpl; lia|]. split.
      * simpl. now rewrite Hex.
      * intros i Hi. destruct i as [|i].
        -- split; [intros _ j Hj; lia | intros _; lia].
        -- simpl in Hi. specialize (Hiff i ltac:(lia)). split.
           ++ intros Hlt j Hj. destruct j as [|j].
              ** now rewrite Nat.add_0_r.
              ** replace (length pre + S j)%nat
                   with (S (length pre) + j)%nat by lia.
                 apply (proj1 Hiff); lia.
           ++ intros Hall. apply -> Nat.succ_lt_mono. apply (proj2 Hiff).
              intros j Hj.
              replace (S (length pre) + j)%nat
                with (length pre + S j)%nat by lia.
              apply Hall. lia.
Qed.

(** C6. The scan examines the commits newest first and stops exactly at
    the first commit that affects at least one repo and yields no new todo:
    the commit at index [i] is examined if and only if no commit before it
    satisfied [allDone].  [allDone] is the condition of the [break]: it holds
    of a commit when [repos] is non-empty and the repo loop leaves the stack
    at the size it found it.  A commit that affects no repo never stops the
    scan. *)
Theorem scan_stops_at_first_covered_commit
  (sd : jsstring) (hs : list jsstring) :
  (forall i st,
     length (result (forRepos i (nth i hs []) hs (reposOf sd (nth i hs [])) st))
     = (length st + length (newTodos sd hs i))%nat)
  /\ (forall i, reposOf sd (nth i hs []) = [] -> allDone sd hs i = false)
  /\ exists n,
       (n <= length hs)%nat
       /\ examined (trace (scanned sd hs)) = firstn n hs
       /\ forall i, (i < length hs)%nat ->
            ((i < n)%nat <->
             forall j, (j < i)%nat -> allDone sd hs j = false).
Proof.
  split; [|split].
  - intros i st.
    destruct (forRepos_local i (nth i hs []) hs (reposOf sd (nth i hs [])) st)
      as [-> _].
    now rewrite length_app.
  - intros i Hnone. unfold allDone. now rewrite Hnone.
  - exact (scanLoop_examined sd hs [] []).
Qed.

Lemma scanLoop_calls
  (sd : jsstring) (entries hs : list jsstring) (idx : nat) (st : list Todo.t) :
  let tr := trace (scanLoop sd idx entries hs st) in
  copyCalls tr = []
  /\ filesPassed tr =
       map (fun h => map normalizePath (getFilesModifiedBySha sd h))
         (examined tr).
Proof.
  revert idx st. induction entries as [|h older IH]; intros idx st.
  - now split.
  - cbv zeta. destruct (scanLoop_step sd idx h older hs st) as [_ ->].
    change (GetFilesModifiedBySha sd h :: ?a :: ?t)
      with ([GetFilesModifiedBySha sd h; a] ++ t).
    rewrite !copyCalls_app, !filesPassed_app, !examined_app.
    destruct (lookupsOnly_silent _
                (forRepos_trace idx h hs (reposOf sd h) []))
      as (-> & -> & ->).
    destruct ((0 <? length (reposOf sd h))
              && (length (result (forRepos idx h hs (reposOf sd h) []))
                  =? 0))%nat.
    + now split.
    + destruct (IH (S idx) (st ++ result (forRepos idx h hs (reposOf sd h) [])))
        as [Hc Hf].
      cbv zeta in Hc, Hf. rewrite Hc, Hf. now split.
Qed.

Lemma replay_trace (sd : jsstring) (todos : list Todo.t) :
  trace (replay sd todos) = map (copyCallOf sd) todos.
Proof.
  induction todos as [|todo rest IH]; cbn [replay map]; [reflexivity|].
  rewrite trace_bind, IH. reflexivity.
Qed.

Lemma copyCalls_copyCallOf (sd : jsstring) (todos : list Todo.t) :
  copyCalls (map (copyCallOf sd) todos) = map (copyCallOf sd) todos.
Proof.
  induction todos as [|todo rest IH]; simpl; [reflexivity|]. now rewrite IH.
Qed.

Lemma scanAndReplay_result (sd : jsstring) (hs : list jsstring) :
  result (scanAndReplay sd hs) =
  Z.of_nat (length (rev (result (scanned sd hs)))).
Proof.
  unfold scanAndReplay. now rewrite !result_bind.
Qed.

Lemma scanAndReplay_trace (sd : jsstring) (hs : list jsstring) :
  trace (scanAndReplay sd hs) =
  trace (scanned sd hs) ++ map (copyCallOf sd) (rev (result (scanned sd hs))).
Proof.
  unfold scanAndReplay.
  rewrite !trace_bind, replay_trace, trace_ret. now rewrite app_nil_r.
Qed.

Lemma scanAndReplay_copyCalls (sd : jsstring) (hs : list jsstring) :
  copyCalls (trace (scanAndReplay sd hs)) =
  map (copyCallOf sd) (rev (result (scanned sd hs))).
Proof.
  rewrite scanAndReplay_trace, copyCalls_app, copyCalls_copyCallOf.
  destruct (scanLoop_calls sd hs hs 0 []) as [Hc _]. cbv zeta in Hc.
  unfold scanned. now rewrite Hc.
Qed.

(** C7. The copy/pull-request collaborator is called once per todo, after
    every call of the scan, in the reverse of the order in which the todos
    were pushed; the calls follow one another in the trace, each one made
    when the one before has been awaited. *)
Theorem replay_reverses_push_order (sourceRepo : jsstring) (cloneDepth : Z) :
  let sd := toLocalRepo sourceRepo (cloneDepth + 1) in
  let hs := parseCommitHashes (gitLog sd cloneDepth) in
  let pushed := result (scanned sd hs) in
  let run := scanGoogleapisGenAndCreatePullRequests sourceRepo cloneDepth in
  trace run = trace (scanned sd hs) ++ map (copyCallOf sd) (rev pushed)
  /\ copyCalls (trace (scanned sd hs)) = []
  /\ copyCalls (trace run) = map (copyCallOf sd) (rev pushed).
Proof.
  intros sd hs pushed run. unfold run, scanGoogleapisGenAndCreatePullRequests.
  fold sd. fold hs. split; [apply scanAndReplay_trace|]. split.
  - destruct (scanLoop_calls sd hs hs 0 []) as [Hc _]. exact Hc.
  - apply scanAndReplay_copyCalls.
Qed.

(** C8. The procedure returns the number of todos executed by the replay,
    which is the number of todos pushed during the scan. *)
Theorem returns_number_of_executed_todos
  (sourceRepo : jsstring) (cloneDepth : Z) :
  let sd := toLocalRepo sourceRepo (cloneDepth + 1) in
  let hs := parseCommitHashes (gitLog sd cloneDepth) in
  let run := scanGoogleapisGenAndCreatePullRequests sourceRepo cloneDepth in
  result run = Z.of_nat (length (copyCalls (trace run)))
  /\ result run = Z.of_nat (length (result (scanned sd hs))).
Proof.
  intros sd hs run. unfold run, scanGoogleapisGenAndCreatePullRequests.
  fold sd. fold hs.
  rewrite scanAndReplay_copyCalls, scanAndReplay_result.
  now rewrite length_map, length_rev.
Qed.

(** ** Touched files *)

Lemma normalizePath_slash (f : jsstring) :
  startsWithSlash (normalizePath f) = true.
Proof.
  unfold normalizePath. destruct (startsWithSlash f) eqn:Hf; [exact Hf|].
  reflexivity.
Qed.

Lemma normalizePath_fixed (f : jsstring) :
  startsWithSlash f = true -> normalizePath f = f.
Proof. intros Hf. unfold normalizePath. now rewrite Hf. Qed.

(** C9. Every path handed to [findReposAffectedByFileChanges] begins with
    ['/']: the lists handed over are the touched files of the examined
    commits, each file normalized; normalizing leaves a path that begins
    with ['/'] as it is, and normalizing twice is normalizing once. *)
Theorem touched_files_begin_with_slash :
  (forall f, startsWithSlash (normalizePath f) = true)
  /\ (forall f, startsWithSlash f = true -> normalizePath f = f)
  /\ (forall f, normalizePath (normalizePath f) = normalizePath f)
  /\ (forall sourceRepo cloneDepth,
        let sd := toLocalRepo sourceRepo (cloneDepth + 1) in
        let run :=
          scanGoogleapisGenAndCreatePullRequests sourceRepo cloneDepth in
        let tr := trace run in
        filesPassed tr =
          map (fun h => map normalizePath (getFilesModifiedBySha sd h))
            (examined tr)
        /\ Forall (Forall (fun f => startsWithSlash f = true))
             (filesPassed tr)).
Proof.
  split; [exact normalizePath_slash|]. split; [exact normalizePath_fixed|].
  split.
  - intros f. apply normalizePath_fixed, normalizePath_slash.
  - intros sourceRepo cloneDepth sd run tr.
    assert (Hfiles :
              filesPassed tr =
              map (fun h => map normalizePath (getFilesModifiedBySha sd h))
                (examined tr)).
    { unfold tr, run, scanGoogleapisGenAndCreatePullRequests. fold sd.
      rewrite scanAndReplay_trace, filesPassed_app, examined_app.
      destruct (scanLoop_calls sd
                  (parseCommitHashes (gitLog sd cloneDepth))
                  (parseCommitHashes (gitLog sd cloneDepth)) 0 []) as [_ Hf].
      cbv zeta in Hf. unfold scanned. rewrite Hf.
      assert (Hsilent : forall todos,
                 filesPassed (map (copyCallOf sd) todos) = []
                 /\ examined (map (copyCallOf sd) todos) = []).
      { induction todos as [|t r IH]; [now split | exact IH]. }
      destruct (Hsilent (rev (result
                  (scanLoop sd 0 (parseCommitHashes (gitLog sd cloneDepth))
                     (parseCommitHashes (gitLog sd cloneDepth)) []))))
        as [-> ->].
      now rewrite !app_nil_r. }
    split; [exact Hfiles|]. rewrite Hfiles.
    apply Forall_map, Forall_forall. intros h _.
    apply Forall_map, Forall_forall. intros f _. apply normalizePath_slash.
Qed.

(** ** The dedup invariant of the todo stack *)

Lemma forRepo_unrecorded
  (i : nat) (h : jsstring) (hs : list jsstring) (repo : AffectedRepo.t) :
  Forall unrecorded (result (forRepo i h hs repo [])).
Proof.
  unfold forRepo. destruct (isCommitHashTooOld _ _ _); [constructor|].
  rewrite result_bind.
  destruct (0 <? length _)%nat; [|constructor].
  rewrite result_ret, app_nil_l. apply Forall_forall. intros todo Hin.
  apply todosFor_shape in Hin. destruct Hin as (Hr & Hh & Hincl).
  unfold unrecorded. apply Forall_forall. intros p Hp. rewrite Hr, Hh.
  apply Hincl, collectTodoYamls_In in Hp.
  destruct Hp as [[] | (_ & _ & _ & Hf)]. exact Hf.
Qed.

Lemma forRepos_unrecorded
  (i : nat) (h : jsstring) (hs : list jsstring) (repos : list AffectedRepo.t) :
  Forall unrecorded (result (forRepos i h hs repos [])).
Proof.
  induction repos as [|repo rest IH]; cbn [forRepos]; [constructor|].
  rewrite result_bind.
  destruct (forRepos_local i h hs rest (result (forRepo i h hs repo [])))
    as [-> _].
  apply Forall_app. split; [apply forRepo_unrecorded | exact IH].
Qed.

Lemma scanLoop_unrecorded
  (sd : jsstring) (entries hs : list jsstring) (idx : nat) (st : list Todo.t) :
  Forall unrecorded st ->
  Forall unrecorded (result (scanLoop sd idx entries hs st)).
Proof.
  revert idx st. induction entries as [|h older IH]; intros idx st Hst.
  - exact Hst.
  - destruct (scanLoop_step sd idx h older hs st) as [-> _].
    assert (Hnext : Forall unrecorded
                      (st ++ result (forRepos idx h hs (reposOf sd h) []))).
    { apply Forall_app. split; [exact Hst | apply forRepos_unrecorded]. }
    destruct (_ && _); [exact Hnext | now apply IH].
Qed.

(** C5, as the code has it.  When the ledger answers a non-empty build id
    for a repo and the tag of a config-path and a commit, the config-path is
    in no todo pushed for that repo and commit, and in no call of the
    copy/pull-request collaborator for them.  And, whatever the ledger
    holds, the todo list of a repo and a commit is made, in order, of the
    config-paths for which the ledger answers no build id or an empty
    one. *)
Theorem recorded_path_in_no_todo
  (sd : jsstring) (hs : list jsstring)
  (r : GithubRepo.t) (p h : jsstring) :
  (truthy (findBuildForCopy r (copyTagFrom p h)) = true ->
   (forall todo,
      In todo (result (scanned sd hs)) ->
      Todo.repo todo = r -> Todo.commitHash todo = h ->
      ~ In p (Todo.yamlPaths todo))
   /\ (forall params yamlPaths nested draft,
         In (CopyCodeAndAppendOrCreatePullRequest params yamlPaths nested draft)
            (trace (scanAndReplay sd hs)) ->
         CopyParams.destRepo params = r ->
         CopyParams.sourceRepoCommitHash params = h ->
         ~ In p yamlPaths))
  /\ (forall yamls,
        result (collectTodoYamls r h yamls []) =
        map OwlBotYamlAndPath.path
          (filter (fun yaml =>
                     negb (truthy
                             (findBuildForCopy r
                                (copyTagFrom (OwlBotYamlAndPath.path yaml) h))))
                  yamls)).
Proof.
  split; [|intros yamls; now rewrite collectTodoYamls_result].
  intros Hrec.
  assert (Hstack : forall todo,
             In todo (result (scanned sd hs)) ->
             Todo.repo todo = r -> Todo.commitHash todo = h ->
             ~ In p (Todo.yamlPaths todo)).
  { intros todo Hin Hr Hh Hp.
    pose proof (scanLoop_unrecorded sd hs hs 0 [] (Forall_nil _)) as Hinv.
    rewrite Forall_forall in Hinv. specialize (Hinv todo Hin).
    unfold unrecorded in Hinv. rewrite Forall_forall in Hinv.
    specialize (Hinv p Hp). rewrite Hr, Hh in Hinv. congruence. }
  split; [exact Hstack|].
  intros params yamlPaths nested draft Hin Hr Hh.
  assert (Hcopy : In (CopyCodeAndAppendOrCreatePullRequest
                        params yamlPaths nested draft)
                     (copyCalls (trace (scanAndReplay sd hs)))).
  { apply filter_In. now split. }
  rewrite scanAndReplay_copyCalls in Hcopy.
  apply in_map_iff in Hcopy. destruct Hcopy as (todo & Heq & Htodo).
  apply in_rev in Htodo. unfold copyCallOf in Heq.
  injection Heq as Hparams Hpaths _ _. subst params yamlPaths.
  simpl in Hr, Hh. exact (Hstack todo Htodo Hr Hh).
Qed.

(** One affected repo with two config-paths, neither with a build in the
    ledger: the repo loop pushes the todos built from both paths. *)
Lemma forRepos_single_two_paths
  (i : nat) (h : jsstring) (hs : list jsstring) (st : list Todo.t)
  (r : GithubRepo.t) (y1 y2 : OwlBotYamlAndPath.t) :
  isCommitHashTooOld (Some [y1; y2]) (Z.of_nat i) hs = false ->
  truthy (findBuildForCopy r (copyTagFrom (OwlBotYamlAndPath.path y1) h))
    = false ->
  truthy (findBuildForCopy r (copyTagFrom (OwlBotYamlAndPath.path y2) h))
    = false ->
  result (forRepos i h hs [AffectedRepo.mk r [y1; y2]] st) =
    st ++ todosFor r h [OwlBotYamlAndPath.path y1; OwlBotYamlAndPath.path y2]
            combinePullsThreshold.
Proof.
  intros Hfresh H1 H2.
  assert (Hcollect :
            result (collectTodoYamls r h [y1; y2] []) =
            [OwlBotYamlAndPath.path y1; OwlBotYamlAndPath.path y2]).
  { rewrite collectTodoYamls_result. cbn [filter]. now rewrite H1, H2. }
  cbn [forRepos]. rewrite result_bind, result_ret.
  unfold forRepo. cbn [AffectedRepo.yamls AffectedRepo.repo].
  rewrite Hfresh, result_bind, Hcollect. reflexivity.
Qed.

(** * Further properties *)

(** ** Trimming *)

Lemma trimStart_app_whitespace (w s : jsstring) :
  Forall (fun c => isWhiteSpace c = true) w -> trimStart (w ++ s) = trimStart s.
Proof.
  induction 1 as [|c w Hc _ IH]; simpl; [reflexivity|]. now rewrite Hc.
Qed.

Lemma trimStart_fixed (s : jsstring) :
  match s with [] => True | c :: _ => isWhiteSpace c = false end ->
  trimStart s = s.
Proof. destruct s as [|c r]; simpl; [reflexivity|]. now intros ->. Qed.

Lemma trimStart_head (s : jsstring) :
  match trimStart s with [] => True | c :: _ => isWhiteSpace c = false end.
Proof.
  induction s as [|c r IH]; simpl; [exact I|].
  destruct (isWhiteSpace c) eqn:Hc; [exact IH | exact Hc].
Qed.

Lemma trimStart_idempotent (s : jsstring) :
  trimStart (trimStart s) = trimStart s.
Proof. apply trimStart_fixed, trimStart_head. Qed.

Lemma trimStart_app (s t : jsstring) :
  trimStart (s ++ t) =
  match trimStart s with
  | [] => trimStart t
  | _ :: _ => trimStart s ++ t
  end.
Proof.
  induction s as [|c r IH]; simpl; [reflexivity|].
  destruct (isWhiteSpace c); [exact IH | reflexivity].
Qed.

Lemma trimEnd_app_whitespace (s w : jsstring) :
  Forall (fun c => isWhiteSpace c = true) w -> trimEnd (s ++ w) = trimEnd s.
Proof.
  intros Hw. unfold trimEnd. rewrite rev_app_distr.
  rewrite trimStart_app_whitespace; [reflexivity|].
  now apply Forall_rev.
Qed.

(** [trimEnd] keeps a first code unit that is not white space. *)
Lemma trimEnd_head (s : jsstring) :
  match s with [] => True | c :: _ => isWhiteSpace c = false end ->
  match trimEnd s with [] => s = [] | c :: _ => isWhiteSpace c = false end.
Proof.
  destruct s as [|c r]; [reflexivity|]. intros Hc.
  unfold trimEnd. simpl rev. rewrite trimStart_app.
  destruct (trimStart (rev r)) as [|d t] eqn:Ht.
  - simpl. now rewrite Hc.
  - rewrite <- Ht, rev_app_distr. simpl. exact Hc.
Qed.

Lemma trim_head (s : jsstring) :
  match trim s with [] => True | c :: _ => isWhiteSpace c = false end.
Proof.
  unfold trim. pose proof (trimEnd_head (trimStart s) (trimStart_head s)) as H.
  destruct (trimEnd (trimStart s)); [exact I | exact H].
Qed.

Lemma trimEnd_idempotent (s : jsstring) : trimEnd (trimEnd s) = trimEnd s.
Proof.
  unfold trimEnd. now rewrite rev_involutive, trimStart_idempotent.
Qed.

Lemma trim_idempotent (s : jsstring) : trim (trim s) = trim s.
Proof.
  unfold trim at 1. rewrite (trimStart_fixed (trim s) (trim_head s)).
  unfold trim. apply trimEnd_idempotent.
Qed.

Lemma trim_padded (w1 s w2 : jsstring) :
  Forall (fun c => isWhiteSpace c = true) w1 ->
  Forall (fun c => isWhiteSpace c = true) w2 ->
  trim (w1 ++ s ++ w2) = trim s.
Proof.
  intros H1 H2. unfold trim.
  rewrite trimStart_app_whitespace by exact H1. rewrite trimStart_app.
  destruct (trimStart s) as [|c t] eqn:Hs.
  - now rewrite trimStart_whitespace.
  - now apply trimEnd_app_whitespace.
Qed.

Lemma trim_clean (s : jsstring) :
  Forall (fun c => isWhiteSpace c = false) s -> trim s = s.
Proof.
  intros Hs. unfold trim.
  assert (Hfix : forall t, Forall (fun c => isWhiteSpace c = false) t ->
                           trimStart t = t).
  { intros t Ht. apply trimStart_fixed. destruct Ht; [exact I | assumption]. }
  rewrite (Hfix s Hs). unfold trimEnd.
  rewrite (Hfix (rev s)) by now apply Forall_rev.
  apply rev_involutive.
Qed.

Lemma In_trimStart (c : N) (s : jsstring) : In c (trimStart s) -> In c s.
Proof using.
  induction s as [|d r IH]; simpl; [intros []|].
  destruct (isWhiteSpace d); [intros H; right; exact (IH H) | intros H; exact H].
Qed.

Lemma In_trim (c : N) (s : jsstring) : In c (trim s) -> In c s.
Proof using.
  unfold trim, trimEnd. intros H.
  apply In_trimStart. apply in_rev in H. apply In_trimStart in H.
  now apply in_rev.
Qed.

(** ** Collecting the commit hashes *)

(** The recursion of [splitLines]: on the rest of the text, and on the text
    after a CR LF. *)
Lemma splitLines_rect (P : jsstring -> Prop) :
  P [] ->
  (forall c r, P r -> (forall d r', r = d :: r' -> P r') -> P (c :: r)) ->
  forall text, P text.
Proof.
  intros Hnil Hstep text.
  enough (Hboth : P text /\ P (tl text)) by exact (proj1 Hboth).
  induction text as [|c r [IHr IHtl]]; [now split|].
  split; [|exact IHr].
  apply Hstep; [exact IHr|]. intros d r' ->. exact IHtl.
Qed.

Lemma splitLines_cons (c : N) (r : jsstring) :
  exists l ls,
    splitLines (c :: r) = l :: ls
    /\ (c = 0xA%N /\ l = [] /\ ls = splitLines r
        \/ (exists r', c = 0xD%N /\ r = 0xA%N :: r' /\ l = []
                       /\ ls = splitLines r')
        \/ (c <> 0xA%N /\ exists l', l = c :: l'
                                     /\ (l' :: ls = splitLines r
                                         \/ r = [] /\ l' = [] /\ ls = []))).
Proof.
  cbn [splitLines]. destruct (N.eqb_spec c 0xA) as [-> | Hc].
  - exists [], (splitLines r). split; [reflexivity|]. now left.
  - destruct r as [|d r'].
    + exists [c], []. split; [reflexivity|]. right. right.
      split; [exact Hc|]. exists []. split; [reflexivity|]. now right.
    + destruct ((c =? 0xD) && (d =? 0xA))%N eqn:Hcr.
      * apply andb_true_iff in Hcr. destruct Hcr as [H1 H2].
        apply N.eqb_eq in H1, H2. subst.
        exists [], (splitLines r'). split; [reflexivity|].
        right. left. now exists r'.
      * destruct (splitLines (d :: r')) as [|l ls] eqn:Hs.
        -- exfalso. cbn [splitLines] in Hs.
           destruct (d =? 0xA)%N; [discriminate|].
           destruct r' as [|e r'']; [discriminate|].
           destruct ((d =? 0xD) && (e =? 0xA))%N; [discriminate|].
           destruct (splitLines (e :: r'')); discriminate.
        -- exists (c :: l), ls. split; [reflexivity|]. right. right.
           split; [exact Hc|]. exists l. split; [reflexivity|]. now left.
Qed.

(** No piece of a split text holds a line feed. *)
Lemma splitLines_no_line_feed (text : jsstring) :
  Forall (fun l => ~ In 0xA%N l) (splitLines text).
Proof.
  induction text as [|c r IHr IHr'] using splitLines_rect.
  - repeat constructor. intros [].
  - destruct (splitLines_cons c r)
      as (l & ls & -> & [(_ & -> & ->) | [(r' & _ & Hr & -> & ->) | Hrest]]).
    + constructor; [intros [] | exact IHr].
    + constructor; [intros [] | exact (IHr' _ _ Hr)].
    + destruct Hrest as (Hc & l' & -> & [Hs | (_ & -> & ->)]).
      * rewrite <- Hs in IHr. inversion IHr as [|? ? Hl' Hls]; subst.
        constructor; [|exact Hls].
        intros [Heq | Hin]; [congruence | exact (Hl' Hin)].
      * repeat constructor. intros [Heq | []]. congruence.
Qed.

(** The pieces of a text hold code units of the text only. *)
Lemma splitLines_pieces (P : N -> Prop) (text : jsstring) :
  Forall P text -> Forall (Forall P) (splitLines text).
Proof.
  induction text as [|c r IHr IHr'] using splitLines_rect; intros Hall.
  - repeat constructor.
  - inversion Hall as [|? ? Hc Hr]; subst.
    destruct (splitLines_cons c r)
      as (l & ls & -> & [(_ & -> & ->) | [(r' & _ & Hr' & -> & ->) | Hrest]]).
    + constructor; [constructor | exact (IHr Hr)].
    + constructor; [constructor|]. apply (IHr' _ _ Hr').
      rewrite Hr' in Hr. now inversion Hr.
    + destruct Hrest as (_ & l' & -> & [Hs | (_ & -> & ->)]).
      * specialize (IHr Hr). rewrite <- Hs in IHr.
        inversion IHr as [|? ? Hl' Hls]; subst.
        constructor; [now constructor | exact Hls].
      * repeat constructor. exact Hc.
Qed.

Lemma not_whitespace_not_break (c : N) :
  isWhiteSpace c = false -> c <> 0xA%N /\ c <> 0xD%N.
Proof.
  intros Hc. split; intros ->; vm_compute in Hc; discriminate.
Qed.

Lemma splitLines_line (h rest : jsstring) (crlf : bool) :
  Forall (fun c => isWhiteSpace c = false) h ->
  splitLines (lineOf (h, crlf) ++ rest) = h :: splitLines rest.
Proof.
  unfold lineOf. cbn [fst snd]. rewrite <- app_assoc.
  induction 1 as [|c h Hc _ IH].
  - destruct crlf; reflexivity.
  - destruct (not_whitespace_not_break c Hc) as [Hlf Hcr].
    cbn [app]. cbn [splitLines].
    destruct (N.eqb_spec c 0xA) as [Heq | _]; [contradiction|].
    destruct (h ++ (if crlf then [0xD; 0xA]%N else [0xA]%N) ++ rest)
      as [|d r'] eqn:Hrest.
    + destruct h; destruct crlf; discriminate.
    + destruct (N.eqb_spec c 0xD) as [Heq | _]; [contradiction|].
      cbn [andb]. now rewrite IH.
Qed.

Lemma splitLines_logText (entries : list (jsstring * bool)) :
  Forall (fun e => Forall (fun c => isWhiteSpace c = false) (fst e)) entries ->
  splitLines (logText entries) = map fst entries ++ [[]].
Proof.
  induction 1 as [|[h crlf] entries Hh _ IH]; [reflexivity|].
  unfold logText. cbn [flat_map]. fold (logText entries).
  rewrite splitLines_line by exact Hh. cbn [map fst app]. now rewrite IH.
Qed.

(** X1. The output of [git log --format=%H] for a list of hashes (one per
    line, lines ended by LF or CR LF, the hashes non-empty and free of
    white space) is parsed back into exactly these hashes, in order. *)
Theorem parseCommitHashes_logText (entries : list (jsstring * bool)) :
  Forall (fun e => fst e <> []
                   /\ Forall (fun c => isWhiteSpace c = false) (fst e))
         entries ->
  parseCommitHashes (logText entries) = map fst entries.
Proof.
  intros Hall. unfold parseCommitHashes.
  rewrite splitLines_logText
    by (eapply Forall_impl; [|exact Hall]; now intros e [_ He]).
  rewrite map_app, filter_app. cbn [map filter]. change (trim []) with (@nil N).
  cbn [truthy]. rewrite app_nil_r.
  induction Hall as [|[h crlf] entries [Hne Hclean] _ IH]; [reflexivity|].
  cbn [fst] in Hne, Hclean. cbn [map filter fst].
  rewrite (trim_clean h Hclean).
  destruct h as [|c h]; [congruence|]. now rewrite IH.
Qed.

(** X2. Every commit hash collected from the output of [git log] is
    non-empty, is left unchanged by trimming (it neither begins nor ends
    with white space) and holds no line feed. *)
Theorem parseCommitHashes_clean (text : jsstring) :
  Forall (fun h => h <> [] /\ trim h = h /\ ~ In 0xA%N h)
         (parseCommitHashes text).
Proof using.
  unfold parseCommitHashes. apply Forall_forall. intros h Hin.
  apply filter_In in Hin. destruct Hin as [Hin Htruthy].
  apply in_map_iff in Hin. destruct Hin as (l & <- & Hl).
  split; [|split].
  - destruct (trim l); [discriminate | discriminate].
  - apply trim_idempotent.
  - intros Hlf. apply In_trim in Hlf.
    pose proof (splitLines_no_line_feed text) as Hno.
    rewrite Forall_forall in Hno. exact (Hno l Hl Hlf).
Qed.

Lemma parseCommitHashes_blank (text : jsstring) :
  Forall (fun c => isWhiteSpace c = true) text -> parseCommitHashes text = [].
Proof.
  intros Hws. unfold parseCommitHashes.
  pose proof (splitLines_pieces _ text Hws) as Hpieces.
  induction Hpieces as [|l ls Hl _ IH]; [reflexivity|].
  cbn [map filter]. now rewrite (trim_whitespace l Hl).
Qed.

(** X3. When [git log] prints nothing, or white space and line breaks
    only, no commit is collected: the procedure returns 0 and calls neither
    the config store, nor the ledger, nor the copy/pull-request code. *)
Theorem blank_history_does_nothing (sourceRepo : jsstring) (cloneDepth : Z) :
  Forall (fun c => isWhiteSpace c = true)
         (gitLog (toLocalRepo sourceRepo (cloneDepth + 1)) cloneDepth) ->
  scanGoogleapisGenAndCreatePullRequests sourceRepo cloneDepth = (0, []).
Proof.
  intros Hws. unfold scanGoogleapisGenAndCreatePullRequests.
  now rewrite (parseCommitHashes_blank _ Hws).
Qed.

(** ** More on the staleness filter *)

Lemma indexOfFrom_found (arr : list jsstring) (x : jsstring) (i : Z) :
  0 <= i -> indexOfFrom arr x i >= 0 -> In x arr.
Proof.
  intros Hi Hfound. destruct (in_dec jsstring_eq_dec x arr) as [Hin | Hout];
    [exact Hin|].
  rewrite (indexOfFrom_absent arr x i Hout) in Hfound. lia.
Qed.

(** X4. A commit that is too old for a set of configs has a non-negative
    index, the configs declare a boundary that occurs in the history, and
    every commit at a larger index (every older commit) is too old as
    well. *)
Theorem isCommitHashTooOld_older_commits
  (yamls : option (list OwlBotYamlAndPath.t)) (i : Z) (hs : list jsstring) :
  isCommitHashTooOld yamls i hs = true ->
  0 <= i
  /\ (exists l, yamls = Some l /\ beginAfterCommitHash l <> []
                /\ In (beginAfterCommitHash l) hs)
  /\ forall j, i <= j -> isCommitHashTooOld yamls j hs = true.
Proof.
  unfold isCommitHashTooOld. intros Hold.
  destruct yamls as [l|]; [|discriminate].
  destruct (beginAfterCommitHash l) as [|c H] eqn:Hsel; [discriminate|].
  apply andb_true_iff in Hold. destruct Hold as [Hge Hle].
  apply Z.geb_le in Hge. apply Z.leb_le in Hle.
  split; [lia|]. split.
  - exists l. rewrite Hsel. split; [reflexivity|]. split; [discriminate|].
    apply (indexOfFrom_found hs (c :: H) 0); [lia|].
    unfold indexOf in Hge. lia.
  - intros j Hj. apply andb_true_iff.
    split; [apply Z.geb_le | apply Z.leb_le]; lia.
Qed.

Lemma beginAfterCommitHash_hashOf
  (pre post : list OwlBotYamlAndPath.t) (y y' : OwlBotYamlAndPath.t) :
  hashOf y = hashOf y' ->
  beginAfterCommitHash (pre ++ y :: post)
  = beginAfterCommitHash (pre ++ y' :: post).
Proof.
  intros Hy. induction pre as [|z pre IH]; simpl.
  - now rewrite Hy.
  - now rewrite IH.
Qed.

(** X5. White space around a [begin-after-commit-hash] does not matter:
    a config that declares the hash padded with white space on either side
    gives the answers of the config that declares the bare hash. *)
Theorem isCommitHashTooOld_padding
  (pre post : list OwlBotYamlAndPath.t) (p w1 H w2 : jsstring)
  (i : Z) (hs : list jsstring) :
  Forall (fun c => isWhiteSpace c = true) w1 ->
  Forall (fun c => isWhiteSpace c = true) w2 ->
  isCommitHashTooOld
    (Some (pre ++ OwlBotYamlAndPath.mk p (OwlBotYaml.mk (Some (w1 ++ H ++ w2)))
             :: post)) i hs
  = isCommitHashTooOld
      (Some (pre ++ OwlBotYamlAndPath.mk p (OwlBotYaml.mk (Some H)) :: post))
      i hs.
Proof.
  intros H1 H2. unfold isCommitHashTooOld.
  rewrite (beginAfterCommitHash_hashOf pre post
             (OwlBotYamlAndPath.mk p (OwlBotYaml.mk (Some (w1 ++ H ++ w2))))
             (OwlBotYamlAndPath.mk p (OwlBotYaml.mk (Some H))));
    [reflexivity|].
  unfold hashOf. simpl. now rewrite trim_padded.
Qed.

(** ** More on the repo loop *)

Lemma collectTodoYamls_lookups
  (repo : GithubRepo.t) (h : jsstring) (yamls : list OwlBotYamlAndPath.t)
  (acc : list jsstring) :
  trace (collectTodoYamls repo h yamls acc) = lookupsOf repo h yamls.
Proof.
  revert acc. induction yamls as [|yaml rest IH]; intros acc;
    cbn [collectTodoYamls lookupsOf map]; [reflexivity|].
  rewrite trace_bind. cbn [awaitFindBuildForCopy trace result fst snd app].
  f_equal. destruct (truthy _); apply IH.
Qed.

Lemma todosFor_paths
  (repo : GithubRepo.t) (h : jsstring) (todoYamls : list jsstring)
  (threshold : Z) :
  flat_map Todo.yamlPaths (todosFor repo h todoYamls threshold) = todoYamls.
Proof.
  unfold todosFor. destruct (_ >? _); simpl; [apply app_nil_r|].
  induction todoYamls as [|p l IH]; simpl; [reflexivity | now rewrite IH].
Qed.

Lemma todosFor_nonempty
  (repo : GithubRepo.t) (h : jsstring) (todoYamls : list jsstring)
  (threshold : Z) (todo : Todo.t) :
  todoYamls <> [] ->
  In todo (todosFor repo h todoYamls threshold) ->
  Todo.yamlPaths todo <> [].
Proof.
  unfold todosFor. intros Hne. destruct (_ >? _).
  - intros [<- | []]. exact Hne.
  - intros Hin. apply in_map_iff in Hin. destruct Hin as (p & <- & _).
    discriminate.
Qed.

(** What the body of the repo loop pushes, in terms of the staleness filter,
    the ledger and the threshold. *)
Lemma forRepo_pushes
  (i : nat) (h : jsstring) (hs : list jsstring) (repo : AffectedRepo.t) :
  let todoYamls :=
    pathsWithoutBuild (AffectedRepo.repo repo) h (AffectedRepo.yamls repo) in
  result (forRepo i h hs repo []) =
  if isCommitHashTooOld (Some (AffectedRepo.yamls repo)) (Z.of_nat i) hs
  then []
  else
    match todoYamls with
    | [] => []
    | _ :: _ =>
        todosFor (AffectedRepo.repo repo) h todoYamls combinePullsThreshold
    end.
Proof.
  intros todoYamls. unfold forRepo.
  destruct (isCommitHashTooOld _ _ _); [reflexivity|].
  rewrite result_bind, collectTodoYamls_result. cbn [app].
  fold (pathsWithoutBuild (AffectedRepo.repo repo) h (AffectedRepo.yamls repo)).
  fold todoYamls. now destruct todoYamls.
Qed.

(** X6. The todos pushed for a repo at a commit carry, between them, each
    config-path without a build in the ledger exactly as often as the repo
    lists it and in the order of the repo's configs, whether they are
    combined or not; for a repo the commit is too old for, nothing is
    pushed: the stack is left as it was. *)
Theorem forRepo_keeps_every_path
  (i : nat) (h : jsstring) (hs : list jsstring) (repo : AffectedRepo.t)
  (st : list Todo.t) :
  flat_map Todo.yamlPaths (result (forRepo i h hs repo st)) =
  flat_map Todo.yamlPaths st ++
  (if isCommitHashTooOld (Some (AffectedRepo.yamls repo)) (Z.of_nat i) hs
   then []
   else pathsWithoutBuild (AffectedRepo.repo repo) h (AffectedRepo.yamls repo))
  /\ (isCommitHashTooOld (Some (AffectedRepo.yamls repo)) (Z.of_nat i) hs
      = true ->
      result (forRepo i h hs repo st) = st).
Proof.
  split.
  - destruct (forRepo_local i h hs repo st) as [-> _].
    rewrite flat_map_app. f_equal. rewrite forRepo_pushes. cbv zeta.
    destruct (isCommitHashTooOld _ _ _); [reflexivity|].
    destruct (pathsWithoutBuild _ _ _) as [|p l] eqn:Hp; [reflexivity|].
    apply todosFor_paths.
  - intros Hold. unfold forRepo. now rewrite Hold.
Qed.

(** X7. The ledger is asked once for each config of an affected repo, in
    the order of the configs and whatever it answers, unless the commit is
    too old for the repo: then it is not asked at all. *)
Theorem forRepo_lookups
  (i : nat) (h : jsstring) (hs : list jsstring) (repo : AffectedRepo.t)
  (st : list Todo.t) :
  trace (forRepo i h hs repo st) =
  if isCommitHashTooOld (Some (AffectedRepo.yamls repo)) (Z.of_nat i) hs
  then []
  else lookupsOf (AffectedRepo.repo repo) h (AffectedRepo.yamls repo).
Proof.
  unfold forRepo. destruct (isCommitHashTooOld _ _ _); [reflexivity|].
  rewrite trace_bind, collectTodoYamls_lookups.
  destruct (0 <? length _)%nat; apply app_nil_r.
Qed.

Lemma forRepos_flat
  (i : nat) (h : jsstring) (hs : list jsstring) (repos : list AffectedRepo.t) :
  result (forRepos i h hs repos []) =
  flat_map (fun repo => result (forRepo i h hs repo [])) repos.
Proof.
  induction repos as [|repo rest IH]; cbn [forRepos flat_map]; [reflexivity|].
  rewrite result_bind.
  destruct (forRepos_local i h hs rest (result (forRepo i h hs repo [])))
    as [-> _].
  now rewrite IH.
Qed.

Lemma forRepo_settled
  (i : nat) (h : jsstring) (hs : list jsstring) (repo : AffectedRepo.t) :
  (length (result (forRepo i h hs repo [])) =? 0)%nat = settled i h hs repo.
Proof.
  rewrite forRepo_pushes. cbv zeta. unfold settled, pathsWithoutBuild.
  destruct (isCommitHashTooOld _ _ _); [reflexivity|]. cbn [orb].
  induction (AffectedRepo.yamls repo) as [|yaml rest IH]; [reflexivity|].
  cbn [filter forallb].
  destruct (truthy (findBuildForCopy (AffectedRepo.repo repo)
                      (copyTagFrom (OwlBotYamlAndPath.path yaml) h)));
    cbn [negb andb]; [exact IH|].
  cbn [map]. unfold todosFor. now destruct (_ >? _).
Qed.

Lemma length_flat_map_zero {A B : Type} (f : A -> list B) (l : list A) :
  (length (flat_map f l) =? 0)%nat
  = forallb (fun a => (length (f a) =? 0)%nat) l.
Proof.
  induction l as [|a l IH]; [reflexivity|].
  cbn [flat_map forallb]. rewrite length_app, <- IH.
  destruct (length (f a)); [reflexivity|]. reflexivity.
Qed.

(** X8. The scan stops at a commit exactly when the commit affects at
    least one repo and each affected repo is settled: the commit is too old
    for it, or the ledger holds a build for every one of its configs. *)
Theorem allDone_iff_all_settled (sd : jsstring) (hs : list jsstring) (i : nat) :
  let h := nth i hs [] in
  allDone sd hs i =
  (0 <? length (reposOf sd h))%nat && forallb (settled i h hs) (reposOf sd h).
Proof.
  intros h. unfold allDone, newTodos. fold h. f_equal.
  rewrite forRepos_flat, length_flat_map_zero.
  induction (reposOf sd h) as [|repo rest IH]; [reflexivity|].
  cbn [forallb]. now rewrite forRepo_settled, IH.
Qed.

(** ** More on the scan loop *)

Lemma scanLoop_result
  (sd : jsstring) (entries pre : list jsstring) (st : list Todo.t) :
  let run := scanLoop sd (length pre) entries (pre ++ entries) st in
  result run =
  st ++ flat_map (newTodos sd (pre ++ entries))
          (seq (length pre) (length (examined (trace run)))).
Proof.
  revert pre st. induction entries as [|h older IH]; intros pre st; cbv zeta.
  - cbn. now rewrite app_nil_r.
  - destruct (scanLoop_step sd (length pre) h older (pre ++ h :: older) st)
      as [-> ->].
    change (GetFilesModifiedBySha sd h :: ?a :: ?t)
      with ([GetFilesModifiedBySha sd h; a] ++ t).
    rewrite !examined_app.
    destruct (lookupsOnly_silent _
                (forRepos_trace (length pre) h (pre ++ h :: older)
                   (reposOf sd h) [])) as (-> & _ & _).
    assert (Hnew : newTodos sd (pre ++ h :: older) (length pre)
                   = result (forRepos (length pre) h (pre ++ h :: older)
                               (reposOf sd h) [])).
    { unfold newTodos. now rewrite nth_middle_entry. }
    destruct ((0 <? length (reposOf sd h))
              && (length (result (forRepos (length pre) h (pre ++ h :: older)
                                    (reposOf sd h) [])) =? 0))%nat.
    + cbn. now rewrite Hnew, app_nil_r.
    + specialize (IH (pre ++ [h])
                    (st ++ result (forRepos (length pre) h (pre ++ h :: older)
                                     (reposOf sd h) []))).
      cbv zeta in IH. rewrite <- app_assoc in IH. cbn [app] in IH.
      rewrite length_app in IH. cbn [length] in IH.
      replace (length pre + 1)%nat with (S (length pre)) in IH by lia.
      rewrite IH. cbn [examined flat_map app length seq].
      rewrite Hnew. now rewrite <- app_assoc.
Qed.

Lemma scanned_examined_length (sd : jsstring) (hs : list jsstring) :
  (length (examined (trace (scanned sd hs))) <= length hs)%nat.
Proof.
  destruct (scanLoop_examined sd hs [] []) as (n & Hn & Hex & _).
  unfold scanned. cbn [length app] in Hex. rewrite Hex, length_firstn. lia.
Qed.

(** X9. When the scan is over the todo stack holds, in history order, what
    each examined commit yielded: the todos of the newest commit first,
    then those of the next one, up to the last commit examined. *)
Theorem scanned_stack_by_commit (sd : jsstring) (hs : list jsstring) :
  result (scanned sd hs) =
  flat_map (newTodos sd hs)
    (seq 0 (length (examined (trace (scanned sd hs))))).
Proof.
  exact (scanLoop_result sd hs [] []).
Qed.

Lemma rev_flat_map {A B : Type} (f : A -> list B) (l : list A) :
  rev (flat_map f l) = flat_map (fun a => rev (f a)) (rev l).
Proof.
  induction l as [|a l IH]; [reflexivity|].
  cbn [flat_map rev]. rewrite rev_app_distr, IH, flat_map_app.
  cbn [flat_map]. now rewrite app_nil_r.
Qed.

Lemma map_flat_map {A B C : Type} (g : B -> C) (f : A -> list B) (l : list A) :
  map g (flat_map f l) = flat_map (fun a => map g (f a)) l.
Proof.
  induction l as [|a l IH]; [reflexivity|].
  cbn [flat_map]. now rewrite map_app, IH.
Qed.

(** X10. The replay goes through the examined commits from the oldest to
    the newest; for each commit it makes the copy calls of the todos that
    commit yielded, last pushed first. *)
Theorem replay_oldest_commit_first (sd : jsstring) (hs : list jsstring) :
  copyCalls (trace (scanAndReplay sd hs)) =
  flat_map (fun i => map (copyCallOf sd) (rev (newTodos sd hs i)))
    (rev (seq 0 (length (examined (trace (scanned sd hs)))))).
Proof.
  rewrite scanAndReplay_copyCalls. rewrite scanned_stack_by_commit at 1.
  now rewrite rev_flat_map, map_flat_map.
Qed.

Lemma newTodos_In
  (sd : jsstring) (hs : list jsstring) (i : nat) (todo : Todo.t) :
  In todo (newTodos sd hs i) ->
  let h := nth i hs [] in
  exists repo,
    In repo (reposOf sd h)
    /\ isCommitHashTooOld (Some (AffectedRepo.yamls repo)) (Z.of_nat i) hs
       = false
    /\ pathsWithoutBuild (AffectedRepo.repo repo) h (AffectedRepo.yamls repo)
       <> []
    /\ In todo
         (todosFor (AffectedRepo.repo repo) h
            (pathsWithoutBuild (AffectedRepo.repo repo) h
               (AffectedRepo.yamls repo))
            combinePullsThreshold).
Proof.
  intros Hin h. unfold newTodos in Hin. fold h in Hin.
  rewrite forRepos_flat in Hin. apply in_flat_map in Hin.
  destruct Hin as (repo & Hrepo & Htodo). exists repo.
  rewrite forRepo_pushes in Htodo. cbv zeta in Htodo.
  destruct (isCommitHashTooOld _ _ _); [contradiction|].
  destruct (pathsWithoutBuild _ _ _) as [|p l] eqn:Hp; [contradiction|].
  repeat split; [exact Hrepo | discriminate | exact Htodo].
Qed.

Lemma scanned_In (sd : jsstring) (hs : list jsstring) (todo : Todo.t) :
  In todo (result (scanned sd hs)) ->
  exists i,
    (i < length (examined (trace (scanned sd hs))))%nat
    /\ (i < length hs)%nat
    /\ In todo (newTodos sd hs i).
Proof.
  intros Hin. rewrite scanned_stack_by_commit in Hin.
  apply in_flat_map in Hin. destruct Hin as (i & Hi & Htodo).
  apply in_seq in Hi. exists i.
  pose proof (scanned_examined_length sd hs).
  repeat split; [lia | lia | exact Htodo].
Qed.

(** X11. Where a todo on the stack comes from: its commit is an examined
    commit of the history, its repo is one the config store reported for
    that commit, the commit is not too old for that repo, and its
    config-paths, of which there is at least one, are configs of that repo
    without a build in the ledger. *)
Theorem todo_provenance (sd : jsstring) (hs : list jsstring) (todo : Todo.t) :
  In todo (result (scanned sd hs)) ->
  exists i repo,
    (i < length (examined (trace (scanned sd hs))))%nat
    /\ nth_error hs i = Some (Todo.commitHash todo)
    /\ In repo (reposOf sd (Todo.commitHash todo))
    /\ AffectedRepo.repo repo = Todo.repo todo
    /\ isCommitHashTooOld (Some (AffectedRepo.yamls repo)) (Z.of_nat i) hs
       = false
    /\ Todo.yamlPaths todo <> []
    /\ incl (Todo.yamlPaths todo)
         (pathsWithoutBuild (Todo.repo todo) (Todo.commitHash todo)
            (AffectedRepo.yamls repo)).
Proof.
  intros Hin. apply scanned_In in Hin. destruct Hin as (i & Hex & Hi & Hnew).
  apply newTodos_In in Hnew. cbv zeta in Hnew.
  destruct Hnew as (repo & Hrepo & Hfresh & Hne & Htodo).
  destruct (todosFor_shape _ _ _ _ _ Htodo) as (Hr & Hh & Hincl).
  exists i, repo. rewrite Hh, Hr.
  repeat split; try assumption.
  - now apply nth_error_nth'.
  - exact (todosFor_nonempty _ _ _ _ _ Hne Htodo).
Qed.

Lemma pathsWithoutBuild_length
  (repo : GithubRepo.t) (h : jsstring) (yamls : list OwlBotYamlAndPath.t) :
  (length (pathsWithoutBuild repo h yamls) <= length yamls)%nat.
Proof.
  unfold pathsWithoutBuild. rewrite length_map. apply filter_length_le.
Qed.

(** X12. When no repo has more configs than [combinePullsThreshold] (so
    with the default threshold), nothing is combined: every todo on the
    stack holds exactly one config-path. *)
Theorem one_path_per_todo_below_threshold (sd : jsstring) (hs : list jsstring) :
  (forall touchedFiles repo,
     In repo (findReposAffectedByFileChanges touchedFiles) ->
     Z.of_nat (length (AffectedRepo.yamls repo)) <= combinePullsThreshold) ->
  forall todo,
    In todo (result (scanned sd hs)) -> exists p, Todo.yamlPaths todo = [p].
Proof.
  intros Hsmall todo Hin. apply scanned_In in Hin.
  destruct Hin as (i & _ & _ & Hnew).
  apply newTodos_In in Hnew. cbv zeta in Hnew.
  destruct Hnew as (repo & Hrepo & _ & _ & Htodo).
  specialize (Hsmall _ _ Hrepo).
  pose proof (pathsWithoutBuild_length (AffectedRepo.repo repo)
                (nth i hs []) (AffectedRepo.yamls repo)) as Hlen.
  unfold todosFor in Htodo.
  destruct (_ >? _) eqn:Hgt.
  - apply Z.gtb_lt in Hgt. lia.
  - apply in_map_iff in Htodo. destruct Htodo as (p & <- & _).
    now exists p.
Qed.

(** X13. With a threshold of zero or less everything is combined: for a
    commit, each affected repo that is not settled gets exactly one todo,
    which holds all its config-paths without a build; a settled repo gets
    none. *)
Theorem one_todo_per_repo_at_zero_threshold
  (i : nat) (h : jsstring) (hs : list jsstring) (repo : AffectedRepo.t) :
  combinePullsThreshold <= 0 ->
  result (forRepo i h hs repo []) =
  if settled i h hs repo then []
  else [Todo.mk (AffectedRepo.repo repo) h
          (pathsWithoutBuild (AffectedRepo.repo repo) h
             (AffectedRepo.yamls repo))].
Proof.
  intros Hzero. rewrite <- forRepo_settled, forRepo_pushes. cbv zeta.
  destruct (isCommitHashTooOld _ _ _); [reflexivity|].
  destruct (pathsWithoutBuild _ _ _) as [|p l]; [reflexivity|].
  unfold todosFor.
  destruct (_ >? _) eqn:Hgt; [reflexivity|].
  exfalso. rewrite Z.gtb_ltb in Hgt. apply Z.ltb_ge in Hgt.
  cbn [length] in Hgt. lia.
Qed.

(** X14. For a [cloneDepth] that is a safe integer (so that
    [cloneDepth + 1] is computed exactly), every call of the
    copy/pull-request code reads from the clone made with depth
    [cloneDepth + 1], is for a hash of the collected history, carries at
    least one config-path, and is given [maxYamlCountPerPullRequest],
    [withNestedCommitDelimiters] and [draftPullRequests] as the procedure
    received them. *)
Theorem copy_call_arguments (sourceRepo : jsstring) (cloneDepth : Z) :
  - MAX_SAFE_INTEGER <= cloneDepth <= MAX_SAFE_INTEGER ->
  let sd := toLocalRepo sourceRepo (cloneDepth + 1) in
  let hs := parseCommitHashes (gitLog sd cloneDepth) in
  forall params yamlPaths nested draft,
    In (CopyCodeAndAppendOrCreatePullRequest params yamlPaths nested draft)
       (trace (scanGoogleapisGenAndCreatePullRequests sourceRepo cloneDepth)) ->
    CopyParams.sourceRepo params = sd
    /\ CopyParams.maxYamlCountPerPullRequest params
       = maxYamlCountPerPullRequest
    /\ nested = withNestedCommitDelimiters
    /\ draft = draftPullRequests
    /\ In (CopyParams.sourceRepoCommitHash params) hs
    /\ yamlPaths <> [].
Proof.
  intros _ sd hs params yamlPaths nested draft Hin.
  unfold scanGoogleapisGenAndCreatePullRequests in Hin. fold sd hs in Hin.
  assert (Hcopy : In (CopyCodeAndAppendOrCreatePullRequest
                        params yamlPaths nested draft)
                     (copyCalls (trace (scanAndReplay sd hs)))).
  { apply filter_In. now split. }
  rewrite scanAndReplay_copyCalls in Hcopy.
  apply in_map_iff in Hcopy. destruct Hcopy as (todo & Heq & Htodo).
  apply in_rev in Htodo. unfold copyCallOf in Heq.
  injection Heq as <- <- <- <-.
  destruct (todo_provenance sd hs todo Htodo)
    as (i & repo & _ & Hnth & _ & _ & _ & Hne & _).
  cbn [CopyParams.sourceRepo CopyParams.maxYamlCountPerPullRequest
       CopyParams.sourceRepoCommitHash].
  repeat split; try reflexivity; [|exact Hne].
  exact (nth_error_In _ _ Hnth).
Qed.

(** X15. A run that finds the newest commit settled (it affects a repo, and
    every affected repo is too old for it or has all its builds) looks at
    that commit only, copies nothing and returns 0. *)
Theorem caught_up_run_does_nothing
  (sd h : jsstring) (older : list jsstring) :
  allDone sd (h :: older) 0 = true ->
  result (scanAndReplay sd (h :: older)) = 0
  /\ examined (trace (scanAndReplay sd (h :: older))) = [h]
  /\ copyCalls (trace (scanAndReplay sd (h :: older))) = [].
Proof.
  intros Hdone.
  destruct (scanLoop_step sd 0 h older (h :: older) []) as [Hres Htr].
  pose proof (allDone_at sd [] older h) as Hat. cbn [app length] in Hat.
  rewrite Hdone in Hat. rewrite <- Hat in Hres, Htr.
  assert (Hnone : result (forRepos 0 h (h :: older) (reposOf sd h) []) = []).
  { symmetry in Hat. apply andb_true_iff in Hat. destruct Hat as [_ Hlen].
    apply Nat.eqb_eq in Hlen. now apply length_zero_iff_nil. }
  rewrite Hnone in Hres. cbn [app] in Hres.
  assert (Hstack : result (scanned sd (h :: older)) = []) by exact Hres.
  rewrite scanAndReplay_result, scanAndReplay_copyCalls, scanAndReplay_trace.
  rewrite Hstack. cbn [rev map length]. rewrite app_nil_r.
  repeat split. unfold scanned. rewrite Htr.
  change (GetFilesModifiedBySha sd h :: ?a :: ?t)
    with ([GetFilesModifiedBySha sd h; a] ++ t).
  rewrite examined_app.
  destruct (lookupsOnly_silent _
              (forRepos_trace 0 h (h :: older) (reposOf sd h) []))
    as (Hex & _ & _).
  rewrite app_nil_r, Hex. reflexivity.
Qed.

End Scan.

(** C1, as the code has it.  For a commit that affects one repo with two
    config-paths, neither with a build in the ledger, and that is not too
    old for the repo: with [combinePullsThreshold = 1] the two paths exceed
    the threshold and one todo holding both is pushed; with
    [combinePullsThreshold = 2] they do not and two todos are pushed, one
    per path. *)
Theorem two_paths_combined_at_one_split_at_two
  (findBuildForCopy : GithubRepo.t -> jsstring -> option jsstring)
  (copyTagFrom : jsstring -> jsstring -> jsstring)
  (i : nat) (h : jsstring) (hs : list jsstring) (st : list Todo.t)
  (r : GithubRepo.t) (y1 y2 : OwlBotYamlAndPath.t) :
  isCommitHashTooOld (Some [y1; y2]) (Z.of_nat i) hs = false ->
  truthy (findBuildForCopy r (copyTagFrom (OwlBotYamlAndPath.path y1) h))
    = false ->
  truthy (findBuildForCopy r (copyTagFrom (OwlBotYamlAndPath.path y2) h))
    = false ->
  result (forRepos findBuildForCopy copyTagFrom 1 i h hs
            [AffectedRepo.mk r [y1; y2]] st) =
    st ++ [Todo.mk r h [OwlBotYamlAndPath.path y1; OwlBotYamlAndPath.path y2]]
  /\ result (forRepos findBuildForCopy copyTagFrom 2 i h hs
               [AffectedRepo.mk r [y1; y2]] st) =
       st ++ [Todo.mk r h [OwlBotYamlAndPath.path y1];
              Todo.mk r h [OwlBotYamlAndPath.path y2]].
Proof.
  intros Hfresh H1 H2.
  split; rewrite forRepos_single_two_paths by assumption; reflexivity.
Qed.

(** ** The procedure on the sample history *)

Example parseCommitHashes_sample :
  parseCommitHashes (Sample.log Sample.workDir 100)
  = [Sample.c3; Sample.c2; Sample.c1].
Proof. reflexivity. Qed.

(** With an empty ledger both commits that touch files yield two todos;
    the replay starts with the older commit. *)
Example replay_sample :
  let run :=
    scanGoogleapisGenAndCreatePullRequests Sample.clone Sample.log Sample.files
      Sample.repos Sample.noBuilds Sample.tag MAX_SAFE_INTEGER No
      MAX_SAFE_INTEGER false Sample.sourceRepo 100 in
  result run = 4
  /\ examined (trace run) = [Sample.c3; Sample.c2; Sample.c1]
  /\ copyCalls (trace run) =
     map (copyCallOf No MAX_SAFE_INTEGER false Sample.workDir)
       [Todo.mk Sample.repoR Sample.c2 [Sample.pathB];
        Todo.mk Sample.repoR Sample.c2 [Sample.pathA];
        Todo.mk Sample.repoR Sample.c3 [Sample.pathB];
        Todo.mk Sample.repoR Sample.c3 [Sample.pathA]].
Proof. vm_compute. repeat split. Qed.

(** When the second commit is covered by the ledger the scan stops there:
    the touched files of the oldest commit are never asked for, and only
    the todos of the newest commit are replayed. *)
Example caught_up_sample :
  let run :=
    scanGoogleapisGenAndCreatePullRequests Sample.clone Sample.log Sample.files
      Sample.repos Sample.caughtUp Sample.tag MAX_SAFE_INTEGER No
      MAX_SAFE_INTEGER false Sample.sourceRepo 100 in
  result run = 2 /\ examined (trace run) = [Sample.c3; Sample.c2].
Proof. vm_compute. repeat split. Qed.

(** ** The properties at concrete inputs *)

(** C1 as the specification words it fails: on the sample commit [c2] with
    an empty ledger, threshold 1 yields one todo with both paths, not two,
    and threshold 2 yields two todos, not one. *)
Lemma two_paths_split_at_one_combined_at_two_fails :
  result (forRepos Sample.noBuilds Sample.tag 1 0 Sample.c2 [Sample.c2]
            [Sample.affected] [])
  = [Todo.mk Sample.repoR Sample.c2 [Sample.pathA; Sample.pathB]]
  /\ result (forRepos Sample.noBuilds Sample.tag 1 0 Sample.c2 [Sample.c2]
               [Sample.affected] [])
     <> [Todo.mk Sample.repoR Sample.c2 [Sample.pathA];
         Todo.mk Sample.repoR Sample.c2 [Sample.pathB]]
  /\ result (forRepos Sample.noBuilds Sample.tag 2 0 Sample.c2 [Sample.c2]
               [Sample.affected] [])
     = [Todo.mk Sample.repoR Sample.c2 [Sample.pathA];
        Todo.mk Sample.repoR Sample.c2 [Sample.pathB]]
  /\ result (forRepos Sample.noBuilds Sample.tag 2 0 Sample.c2 [Sample.c2]
               [Sample.affected] [])
     <> [Todo.mk Sample.repoR Sample.c2 [Sample.pathA; Sample.pathB]].
Proof.
  split; [reflexivity|]. split; [vm_compute; discriminate|].
  split; [reflexivity|]. vm_compute. discriminate.
Qed.

Lemma two_paths_combined_at_one_split_at_two_witness :
  isCommitHashTooOld (Some [Sample.yamlA; Sample.yamlB]) (Z.of_nat 0)
    [Sample.c2] = false
  /\ truthy (Sample.noBuilds Sample.repoR (Sample.tag Sample.pathA Sample.c2))
     = false
  /\ truthy (Sample.noBuilds Sample.repoR (Sample.tag Sample.pathB Sample.c2))
     = false
  /\ result (forRepos Sample.noBuilds Sample.tag 1 0 Sample.c2 [Sample.c2]
               [Sample.affected] [])
     = [] ++ [Todo.mk Sample.repoR Sample.c2 [Sample.pathA; Sample.pathB]]
  /\ result (forRepos Sample.noBuilds Sample.tag 2 0 Sample.c2 [Sample.c2]
               [Sample.affected] [])
     = [] ++ [Todo.mk Sample.repoR Sample.c2 [Sample.pathA];
              Todo.mk Sample.repoR Sample.c2 [Sample.pathB]].
Proof.
  split; [reflexivity|]. split; [reflexivity|]. split; [reflexivity|].
  apply (two_paths_combined_at_one_split_at_two Sample.noBuilds Sample.tag
           0 Sample.c2 [Sample.c2] [] Sample.repoR Sample.yamlA Sample.yamlB);
    reflexivity.
Defined.

Lemma forRepo_combines_above_threshold_witness :
  isCommitHashTooOld (Some (AffectedRepo.yamls Sample.affected)) (Z.of_nat 1)
    [Sample.c3; Sample.c2] = false
  /\ [Sample.pathA; Sample.pathB] <> []
  /\ result (forRepo Sample.noBuilds Sample.tag 1 1 Sample.c2
               [Sample.c3; Sample.c2] Sample.affected
               [Todo.mk Sample.repoR Sample.c3 [Sample.pathA]])
     = [Todo.mk Sample.repoR Sample.c3 [Sample.pathA];
        Todo.mk Sample.repoR Sample.c2 [Sample.pathA; Sample.pathB]].
Proof.
  assert (Hne : [Sample.pathA; Sample.pathB] <> []) by discriminate.
  split; [reflexivity|]. split; [exact Hne|].
  destruct (forRepo_combines_above_threshold Sample.noBuilds Sample.tag 1
              1 Sample.c2 [Sample.c3; Sample.c2] Sample.affected
              [Todo.mk Sample.repoR Sample.c3 [Sample.pathA]]
              [Sample.pathA; Sample.pathB] eq_refl eq_refl Hne)
    as [Hcombined _].
  apply Hcombined. reflexivity.
Defined.

Lemma isCommitHashTooOld_boundary_witness :
  beginAfterCommitHash
    [Sample.yamlBlank; Sample.yamlAfterC2; Sample.yamlAfterC1] = Sample.c2
  /\ Sample.c2 <> []
  /\ nth_error [Sample.c3; Sample.c2; Sample.c1] 1 = Some Sample.c2
  /\ isCommitHashTooOld
       (Some [Sample.yamlBlank; Sample.yamlAfterC2; Sample.yamlAfterC1])
       2 [Sample.c3; Sample.c2; Sample.c1] = true
  /\ isCommitHashTooOld
       (Some [Sample.yamlBlank; Sample.yamlAfterC2; Sample.yamlAfterC1])
       0 [Sample.c3; Sample.c2; Sample.c1] = false.
Proof.
  assert (Hne : Sample.c2 <> []) by discriminate.
  assert (Hfirst : forall j, (j < 1)%nat ->
            nth_error [Sample.c3; Sample.c2; Sample.c1] j <> Some Sample.c2).
  { intros j Hj. destruct j as [|j]; [vm_compute; discriminate | lia]. }
  split; [reflexivity|]. split; [exact Hne|]. split; [reflexivity|]. split.
  - destruct (isCommitHashTooOld_boundary
                [Sample.yamlBlank; Sample.yamlAfterC2; Sample.yamlAfterC1]
                [Sample.c3; Sample.c2; Sample.c1] Sample.c2 1 2 eq_refl Hne)
      as [Hfound _].
    destruct (Hfound eq_refl Hfirst) as [Hstale _]. apply Hstale. simpl. lia.
  - destruct (isCommitHashTooOld_boundary
                [Sample.yamlBlank; Sample.yamlAfterC2; Sample.yamlAfterC1]
                [Sample.c3; Sample.c2; Sample.c1] Sample.c2 1 0 eq_refl Hne)
      as [Hfound _].
    destruct (Hfound eq_refl Hfirst) as [_ Hfresh]. apply Hfresh. simpl. lia.
Defined.

Lemma isCommitHashTooOld_first_declared_witness :
  Forall (fun y => truthy (hashOf y) = false) [Sample.yamlBlank]
  /\ beginAfterCommitHash
       ([Sample.yamlBlank] ++ Sample.yamlAfterC2 :: [Sample.yamlAfterC1])
     = Sample.c2
  /\ isCommitHashTooOld (Some [Sample.yamlBlank]) 2
       [Sample.c3; Sample.c2; Sample.c1] = false.
Proof.
  assert (Hpre : Forall (fun y => truthy (hashOf y) = false) [Sample.yamlBlank])
    by (repeat constructor).
  split; [exact Hpre|].
  destruct (isCommitHashTooOld_first_declared
              [Sample.yamlBlank] [Sample.yamlAfterC1] Sample.yamlAfterC2
              Sample.c2 2 [Sample.c3; Sample.c2; Sample.c1] Hpre)
    as [Hsel Hnone].
  split; [|exact Hnone].
  apply Hsel; [reflexivity | discriminate].
Defined.

Lemma isCommitHashTooOld_undefined_or_blank_witness :
  Forall (fun c => isWhiteSpace c = true) [0x20; 0x9; 0xA0; 0xFEFF]%N
  /\ isCommitHashTooOld None 1 [Sample.c3; Sample.c2; Sample.c1] = false
  /\ isCommitHashTooOld
       (Some [OwlBotYamlAndPath.mk Sample.pathA
                (OwlBotYaml.mk (Some [0x20; 0x9; 0xA0; 0xFEFF]%N))])
       1 [Sample.c3; Sample.c2; Sample.c1] = false.
Proof.
  assert (Hw : Forall (fun c => isWhiteSpace c = true)
                 [0x20; 0x9; 0xA0; 0xFEFF]%N) by (repeat constructor).
  split; [exact Hw|].
  destruct (isCommitHashTooOld_undefined_or_blank
              [] [] Sample.pathA [0x20; 0x9; 0xA0; 0xFEFF]%N
              1 [Sample.c3; Sample.c2; Sample.c1] Hw)
    as (Hundef & _ & _ & Hblank).
  split; [exact Hundef | apply Hblank; constructor].
Defined.

(** C5 as the specification words it fails: a ledger that holds the empty
    build id for every tag has a record for [pathA] at [c2], and the todo
    for [pathA] at [c2] is pushed all the same. *)
Lemma empty_build_id_is_not_a_hit :
  Sample.emptyBuildId Sample.repoR (Sample.tag Sample.pathA Sample.c2) <> None
  /\ In (Todo.mk Sample.repoR Sample.c2 [Sample.pathA])
        (result (scanned Sample.files Sample.repos Sample.emptyBuildId
                   Sample.tag MAX_SAFE_INTEGER Sample.workDir
                   [Sample.c3; Sample.c2; Sample.c1]))
  /\ ~ (forall todo,
          In todo (result (scanned Sample.files Sample.repos Sample.emptyBuildId
                             Sample.tag MAX_SAFE_INTEGER Sample.workDir
                             [Sample.c3; Sample.c2; Sample.c1])) ->
          Todo.repo todo = Sample.repoR -> Todo.commitHash todo = Sample.c2 ->
          ~ In Sample.pathA (Todo.yamlPaths todo)).
Proof.
  assert (Hin : In (Todo.mk Sample.repoR Sample.c2 [Sample.pathA])
                  (result (scanned Sample.files Sample.repos Sample.emptyBuildId
                             Sample.tag MAX_SAFE_INTEGER Sample.workDir
                             [Sample.c3; Sample.c2; Sample.c1]))).
  { vm_compute. right. right. left. reflexivity. }
  split; [discriminate|]. split; [exact Hin|].
  intros Hclaim. apply (Hclaim _ Hin eq_refl eq_refl). now left.
Qed.

Lemma recorded_path_in_no_todo_witness :
  truthy (Sample.builtA Sample.repoR (Sample.tag Sample.pathA Sample.c2)) = true
  /\ (forall todo,
        In todo (result (scanned Sample.files Sample.repos Sample.builtA
                           Sample.tag MAX_SAFE_INTEGER Sample.workDir
                           [Sample.c3; Sample.c2; Sample.c1])) ->
        Todo.repo todo = Sample.repoR -> Todo.commitHash todo = Sample.c2 ->
        ~ In Sample.pathA (Todo.yamlPaths todo))
  /\ result (collectTodoYamls Sample.builtA Sample.tag Sample.repoR Sample.c2
               [Sample.yamlA; Sample.yamlB] [])
     = [Sample.pathB]
  /\ result (collectTodoYamls Sample.noBuilds Sample.tag Sample.repoR
               Sample.c2 [Sample.yamlA; Sample.yamlB] [])
     = [Sample.pathA; Sample.pathB].
Proof.
  split; [reflexivity|].
  destruct (recorded_path_in_no_todo Sample.files Sample.repos Sample.builtA
              Sample.tag MAX_SAFE_INTEGER No MAX_SAFE_INTEGER false
              Sample.workDir [Sample.c3; Sample.c2; Sample.c1]
              Sample.repoR Sample.pathA Sample.c2)
    as [Hhit Hmiss].
  destruct (recorded_path_in_no_todo Sample.files Sample.repos Sample.noBuilds
              Sample.tag MAX_SAFE_INTEGER No MAX_SAFE_INTEGER false
              Sample.workDir [Sample.c3; Sample.c2; Sample.c1]
              Sample.repoR Sample.pathA Sample.c2)
    as [_ Hnone].
  split; [exact (proj1 (Hhit eq_refl))|].
  split; [exact (Hmiss [Sample.yamlA; Sample.yamlB])|].
  exact (Hnone [Sample.yamlA; Sample.yamlB]).
Defined.

(** ** The further properties at concrete inputs *)

Lemma parseCommitHashes_logText_witness :
  Forall (fun e => fst e <> []
                   /\ Forall (fun c => isWhiteSpace c = false) (fst e))
         [(Sample.c3, false); (Sample.c2, true); (Sample.c1, false)]
  /\ logText [(Sample.c3, false); (Sample.c2, true); (Sample.c1, false)]
     = Sample.log Sample.workDir 100
  /\ parseCommitHashes
       (logText [(Sample.c3, false); (Sample.c2, true); (Sample.c1, false)])
     = [Sample.c3; Sample.c2; Sample.c1].
Proof.
  assert (Hclean :
            Forall (fun e => fst e <> []
                             /\ Forall (fun c => isWhiteSpace c = false) (fst e))
                   [(Sample.c3, false); (Sample.c2, true); (Sample.c1, false)]).
  { repeat (constructor; [split; [discriminate | repeat constructor]|]).
    constructor. }
  split; [exact Hclean|]. split; [reflexivity|].
  exact (parseCommitHashes_logText _ Hclean).
Defined.

Lemma blank_history_does_nothing_witness :
  Forall (fun c => isWhiteSpace c = true) [0x20; 0xD; 0xA; 0xA]%N
  /\ scanGoogleapisGenAndCreatePullRequests Sample.clone
       (fun _ _ => [0x20; 0xD; 0xA; 0xA]%N) Sample.files Sample.repos
       Sample.noBuilds Sample.tag 1 No MAX_SAFE_INTEGER false
       Sample.sourceRepo 100
     = (0, []).
Proof.
  assert (Hws : Forall (fun c => isWhiteSpace c = true) [0x20; 0xD; 0xA; 0xA]%N)
    by (repeat constructor).
  split; [exact Hws|].
  exact (blank_history_does_nothing Sample.clone
           (fun _ _ => [0x20; 0xD; 0xA; 0xA]%N) Sample.files Sample.repos
           Sample.noBuilds Sample.tag 1 No MAX_SAFE_INTEGER false
           Sample.sourceRepo 100 Hws).
Defined.

Lemma isCommitHashTooOld_older_commits_witness :
  isCommitHashTooOld (Some [Sample.yamlAfterC2]) 1
    [Sample.c3; Sample.c2; Sample.c1] = true
  /\ isCommitHashTooOld (Some [Sample.yamlAfterC2]) 2
       [Sample.c3; Sample.c2; Sample.c1] = true.
Proof.
  split; [reflexivity|].
  destruct (isCommitHashTooOld_older_commits (Some [Sample.yamlAfterC2]) 1
              [Sample.c3; Sample.c2; Sample.c1] eq_refl)
    as (_ & _ & Holder).
  apply Holder. lia.
Defined.

Lemma isCommitHashTooOld_padding_witness :
  Forall (fun c => isWhiteSpace c = true) [0x9; 0x20]%N
  /\ Forall (fun c => isWhiteSpace c = true) [0xD; 0xA]%N
  /\ isCommitHashTooOld
       (Some [OwlBotYamlAndPath.mk Sample.pathA
                (OwlBotYaml.mk (Some ([0x9; 0x20]%N ++ Sample.c2
                                        ++ [0xD; 0xA]%N)))])
       1 [Sample.c3; Sample.c2; Sample.c1]
     = isCommitHashTooOld
         (Some [OwlBotYamlAndPath.mk Sample.pathA
                  (OwlBotYaml.mk (Some Sample.c2))])
         1 [Sample.c3; Sample.c2; Sample.c1].
Proof.
  assert (H1 : Forall (fun c => isWhiteSpace c = true) [0x9; 0x20]%N)
    by (repeat constructor).
  assert (H2 : Forall (fun c => isWhiteSpace c = true) [0xD; 0xA]%N)
    by (repeat constructor).
  split; [exact H1|]. split; [exact H2|].
  exact (isCommitHashTooOld_padding [] [] Sample.pathA [0x9; 0x20]%N
           Sample.c2 [0xD; 0xA]%N 1 [Sample.c3; Sample.c2; Sample.c1] H1 H2).
Defined.

Lemma todo_provenance_witness :
  In (Todo.mk Sample.repoR Sample.c2 [Sample.pathB])
     (result (scanned Sample.files Sample.repos Sample.builtA Sample.tag
                MAX_SAFE_INTEGER Sample.workDir
                [Sample.c3; Sample.c2; Sample.c1]))
  /\ exists i repo,
       (i < length (examined
                      (trace (scanned Sample.files Sample.repos Sample.builtA
                                Sample.tag MAX_SAFE_INTEGER Sample.workDir
                                [Sample.c3; Sample.c2; Sample.c1]))))%nat
       /\ nth_error [Sample.c3; Sample.c2; Sample.c1] i = Some Sample.c2
       /\ In repo (reposOf Sample.files Sample.repos Sample.workDir Sample.c2)
       /\ AffectedRepo.repo repo = Sample.repoR
       /\ isCommitHashTooOld (Some (AffectedRepo.yamls repo)) (Z.of_nat i)
            [Sample.c3; Sample.c2; Sample.c1] = false
       /\ [Sample.pathB] <> []
       /\ incl [Sample.pathB]
            (pathsWithoutBuild Sample.builtA Sample.tag Sample.repoR
               Sample.c2 (AffectedRepo.yamls repo)).
Proof.
  assert (Hin : In (Todo.mk Sample.repoR Sample.c2 [Sample.pathB])
                  (result (scanned Sample.files Sample.repos Sample.builtA
                             Sample.tag MAX_SAFE_INTEGER Sample.workDir
                             [Sample.c3; Sample.c2; Sample.c1]))).
  { vm_compute. right. right. left. reflexivity. }
  split; [exact Hin|].
  exact (todo_provenance Sample.files Sample.repos Sample.builtA Sample.tag
           MAX_SAFE_INTEGER Sample.workDir [Sample.c3; Sample.c2; Sample.c1]
           (Todo.mk Sample.repoR Sample.c2 [Sample.pathB]) Hin).
Defined.

Lemma one_path_per_todo_below_threshold_witness :
  (forall touchedFiles repo,
     In repo (Sample.repos touchedFiles) ->
     Z.of_nat (length (AffectedRepo.yamls repo)) <= 2)
  /\ forall todo,
       In todo (result (scanned Sample.files Sample.repos Sample.noBuilds
                          Sample.tag 2 Sample.workDir
                          [Sample.c3; Sample.c2; Sample.c1])) ->
       exists p, Todo.yamlPaths todo = [p].
Proof.
  assert (Hsmall : forall touchedFiles repo,
             In repo (Sample.repos touchedFiles) ->
             Z.of_nat (length (AffectedRepo.yamls repo)) <= 2).
  { intros touchedFiles repo Hin. destruct touchedFiles as [|f fs];
      [destruct Hin|].
    destruct Hin as [<- | []]. simpl. lia. }
  split; [exact Hsmall|].
  exact (one_path_per_todo_below_threshold Sample.files Sample.repos
           Sample.noBuilds Sample.tag 2 Sample.workDir
           [Sample.c3; Sample.c2; Sample.c1] Hsmall).
Defined.

Lemma one_todo_per_repo_at_zero_threshold_witness :
  0 <= 0
  /\ result (forRepo Sample.builtA Sample.tag 0 1 Sample.c2
               [Sample.c3; Sample.c2; Sample.c1] Sample.affected [])
     = [Todo.mk Sample.repoR Sample.c2 [Sample.pathB]]
  /\ result (forRepo Sample.caughtUp Sample.tag 0 1 Sample.c2
               [Sample.c3; Sample.c2; Sample.c1] Sample.affected [])
     = [].
Proof.
  assert (Hzero : 0 <= 0) by lia.
  split; [exact Hzero|]. split.
  - exact (one_todo_per_repo_at_zero_threshold Sample.builtA Sample.tag 0 1
             Sample.c2 [Sample.c3; Sample.c2; Sample.c1] Sample.affected Hzero).
  - exact (one_todo_per_repo_at_zero_threshold Sample.caughtUp Sample.tag 0 1
             Sample.c2 [Sample.c3; Sample.c2; Sample.c1] Sample.affected Hzero).
Defined.

Lemma copy_call_arguments_witness :
  - MAX_SAFE_INTEGER <= 100 <= MAX_SAFE_INTEGER
  /\ In (CopyCodeAndAppendOrCreatePullRequest
           (CopyParams.mk Sample.workDir Sample.c2 Sample.repoR 5)
           [Sample.pathA; Sample.pathB] Yes true)
        (trace (scanGoogleapisGenAndCreatePullRequests Sample.clone Sample.log
                  Sample.files Sample.repos Sample.noBuilds Sample.tag 1 Yes 5
                  true Sample.sourceRepo 100))
  /\ Sample.workDir = Sample.clone Sample.sourceRepo (100 + 1)
  /\ In Sample.c2
        (parseCommitHashes
           (Sample.log (Sample.clone Sample.sourceRepo (100 + 1)) 100))
  /\ [Sample.pathA; Sample.pathB] <> [].
Proof.
  assert (Hsafe : - MAX_SAFE_INTEGER <= 100 <= MAX_SAFE_INTEGER)
    by (vm_compute; split; discriminate).
  assert (Hin : In (CopyCodeAndAppendOrCreatePullRequest
                      (CopyParams.mk Sample.workDir Sample.c2 Sample.repoR 5)
                      [Sample.pathA; Sample.pathB] Yes true)
                   (trace (scanGoogleapisGenAndCreatePullRequests Sample.clone
                             Sample.log Sample.files Sample.repos
                             Sample.noBuilds Sample.tag 1 Yes 5 true
                             Sample.sourceRepo 100))).
  { vm_compute. do 10 right. left. reflexivity. }
  split; [exact Hsafe|]. split; [exact Hin|].
  destruct (copy_call_arguments Sample.clone Sample.log Sample.files
              Sample.repos Sample.noBuilds Sample.tag 1 Yes 5 true
              Sample.sourceRepo 100 Hsafe _ _ _ _ Hin)
    as (Hdir & _ & _ & _ & Hhash & Hpaths).
  split; [exact Hdir|]. split; [exact Hhash | exact Hpaths].
Defined.

Lemma caught_up_run_does_nothing_witness :
  allDone Sample.files Sample.repos Sample.caughtUp Sample.tag
    MAX_SAFE_INTEGER Sample.workDir [Sample.c2; Sample.c1] 0 = true
  /\ result (scanAndReplay Sample.files Sample.repos Sample.caughtUp
               Sample.tag MAX_SAFE_INTEGER No MAX_SAFE_INTEGER false
               Sample.workDir [Sample.c2; Sample.c1]) = 0
  /\ examined (trace (scanAndReplay Sample.files Sample.repos Sample.caughtUp
                        Sample.tag MAX_SAFE_INTEGER No MAX_SAFE_INTEGER false
                        Sample.workDir [Sample.c2; Sample.c1])) = [Sample.c2]
  /\ copyCalls (trace (scanAndReplay Sample.files Sample.repos Sample.caughtUp
                         Sample.tag MAX_SAFE_INTEGER No MAX_SAFE_INTEGER false
                         Sample.workDir [Sample.c2; Sample.c1])) = [].
Proof.
  split; [reflexivity|].
  exact (caught_up_run_does_nothing Sample.files Sample.repos Sample.caughtUp
           Sample.tag MAX_SAFE_INTEGER No MAX_SAFE_INTEGER false
           Sample.workDir Sample.c2 [Sample.c1] eq_refl).
Defined.
